(** * The YAML-to-JSON AST builder of [languageservice/parser/yamlParser.ts]

    A shallow embedding of [recursivelyBuildAst], [convertError],
    [createJSONDocument] and [parse], followed by the properties the
    natural-language specification states about them.

    Offsets are JavaScript numbers that hold integers; they are modelled by
    [Z].  Strings are sequences of code units, modelled by [string].  The AST
    nodes are JavaScript objects that refer to one another (a child holds its
    parent, a parent holds its children), so they live in an explicit store
    and refer to one another by identifier. *)

From Stdlib Require Import ZArith List String Ascii Bool Lia.
From stdpp Require Import base gmap strings list fin_maps.
Import ListNotations.

Local Open Scope Z_scope.
Local Open Scope string_scope.
Local Open Scope list_scope.

(** ** JavaScript helpers used by the source *)

(** [Array.prototype.indexOf]: the position of the first element equal to
    [x], or [-1]. *)
Fixpoint indexOf_from (i : Z) (l : list string) (x : string) : Z :=
  match l with
  | [] => -1
  | y :: l' => if String.eqb y x then i else indexOf_from (i + 1) l' x
  end.

Definition indexOf (l : list string) (x : string) : Z := indexOf_from 0 l x.

(** [String.prototype.substring(start, end)]: both indices are clamped to
    [0 .. length] and swapped when [start > end]. *)
Definition clampIndex (len i : Z) : Z := Z.max 0 (Z.min i len).

Definition js_substring (s : string) (start end_ : Z) : string :=
  let len := Z.of_nat (String.length s) in
  let a := clampIndex len start in
  let b := clampIndex len end_ in
  let lo := Z.min a b in
  let hi := Z.max a b in
  String.substring (Z.to_nat lo) (Z.to_nat (hi - lo)) s.

(** [String.prototype.startsWith]. *)
Definition startsWith (s pre : string) : bool := String.prefix pre s.

(** [String.prototype.split] with a one-character separator: the pieces
    between the occurrences of the separator, empty pieces included; never
    an empty array. *)
Fixpoint js_split (sep : ascii) (s : string) : list string :=
  match s with
  | EmptyString => [EmptyString]
  | String c rest =>
      if Ascii.eqb c sep then EmptyString :: js_split sep rest
      else match js_split sep rest with
           | [] => [String c EmptyString]
           | w :: ws => String c w :: ws
           end
  end.

(** A [for (const x of xs) { ... }] loop over a state, whose body may
    [break]. *)
Inductive LoopStep (S : Type) : Type :=
| Continue (s : S)
| Break (s : S).
Arguments Continue {S} s.
Arguments Break {S} s.

Definition stepState {S : Type} (r : LoopStep S) : S :=
  match r with Continue s => s | Break s => s end.

Definition forOf {A S : Type} (body : A -> S -> LoopStep S) : list A -> S -> S :=
  fix loop (l : list A) (s : S) : S :=
    match l with
    | [] => s
    | x :: l' =>
        match body x s with
        | Continue s' => loop l' s'
        | Break s' => s'
        end
    end.

(** ** Raw nodes, as the parsing collaborator delivers them *)

(** The fields of a scalar that the builder and the scalar classifier
    read. *)
Record YAMLScalar : Type := mkScalar {
  scalar_startPosition : Z;
  scalar_endPosition : Z;
  scalar_value : string;
  plainScalar : bool
}.

(** One constructor per [Yaml.Kind] the builder dispatches on.  An absent
    value ([null]) is [None].  [YAMLUnknownKind] stands for a node whose
    [kind] is none of the six: the [switch] has no [default] branch.
    The key of a mapping has the type its declaration gives it, a scalar
    with a text; a key that is another kind of node, whose [value] the
    builder would copy as it finds it, is outside the model.  Raw nodes are
    finite trees: an alias placed inside the anchor it refers to, on which
    the builder recurses without end, is outside the model too. *)
#[warnings="-register-all"]
Inductive YAMLNode : Type :=
| YamlMap (startPosition endPosition : Z) (mappings : list YAMLNode)
| YAMLMapping (startPosition endPosition : Z) (key : YAMLScalar)
    (value : option YAMLNode)
| YAMLSequence (startPosition endPosition : Z) (items : list (option YAMLNode))
| YAMLScalarNode (instance : YAMLScalar)
| YAMLAnchorReference (startPosition endPosition : Z) (value : option YAMLNode)
| YAMLIncludeRef (startPosition endPosition : Z) (value : string)
| YAMLUnknownKind (startPosition endPosition : Z).

Definition startPosition (n : YAMLNode) : Z :=
  match n with
  | YamlMap s _ _ | YAMLMapping s _ _ _ | YAMLSequence s _ _
  | YAMLAnchorReference s _ _ | YAMLIncludeRef s _ _ | YAMLUnknownKind s _ => s
  | YAMLScalarNode i => scalar_startPosition i
  end.

Definition endPosition (n : YAMLNode) : Z :=
  match n with
  | YamlMap _ e _ | YAMLMapping _ e _ _ | YAMLSequence _ e _
  | YAMLAnchorReference _ e _ | YAMLIncludeRef _ e _ | YAMLUnknownKind _ e => e
  | YAMLScalarNode i => scalar_endPosition i
  end.

(** [Yaml.ScalarType]. *)
Inductive ScalarType : Type :=
| ScalarType_null | ScalarType_bool | ScalarType_int | ScalarType_float
| ScalarType_string.

(** The functions the builder imports and does not define: the scalar
    classifier and the literal parsers of the parsing collaborator
    ([Yaml.*]) and [parseYamlBoolean] of [./scalar-type].  They are taken as
    total functions; [JSNumber] is the type of the numbers the numeric
    parsers return. *)
Class Collaborators : Type := {
  JSNumber : Type;
  determineScalarType : YAMLScalar -> ScalarType;
  parseYamlBoolean : string -> bool;
  Yaml_parseYamlBoolean : string -> bool;
  Yaml_parseYamlInteger : string -> JSNumber;
  Yaml_parseYamlFloat : string -> JSNumber
}.

(** ** AST nodes and the store they live in *)

(** Object identities are positions in the store. *)
Abbreviation NodeId := nat (only parsing).

Section Ast.
Context `{Collaborators}.

(** Modelled from the spec: the AST node classes of [./jsonParser], which
    are not under src/.  Every node has a parent back-reference (or none), a
    start offset and a length; an Object holds its properties in order, a
    Property a key node and a value node, an Array its items in order, and a
    Number records whether it is integral.  A field the builder has not
    assigned yet, and a JavaScript [undefined] pushed into a list, is
    [None].  [length] is [None] when the constructor is called without its
    optional third argument. *)
Inductive ASTContent : Type :=
| ObjectContent (properties : list (option NodeId))
| PropertyContent (keyNode valueNode : option NodeId)
| ArrayContent (items : list (option NodeId))
| StringContent (value : option string)
| NumberContent (value : option JSNumber) (isInteger : option bool)
| BooleanContent (value : bool)
| NullContent.

Record ASTNode : Type := mkNode {
  parent : option NodeId;
  offset : Z;
  length : option Z;
  content : ASTContent
}.

Record Store : Type := mkStore {
  heap : gmap nat ASTNode;
  next : nat
}.

Definition emptyStore : Store := {| heap := ∅; next := 0%nat |}.

(** [new C(...)]: a fresh object. *)
Definition alloc (n : ASTNode) (σ : Store) : NodeId * Store :=
  (next σ, {| heap := <[next σ := n]> (heap σ); next := S (next σ) |}).

(** An assignment to a field of the object [id]; the fields assigned by the
    builder are all part of the content. *)
Definition setContent (f : ASTContent -> ASTContent) (n : ASTNode) : ASTNode :=
  {| parent := parent n; offset := offset n; length := length n;
     content := f (content n) |}.

Definition update (id : NodeId) (f : ASTContent -> ASTContent) (σ : Store) : Store :=
  {| heap := alter (setContent f) id (heap σ); next := next σ |}.

Definition new_ObjectASTNodeImpl (p : option NodeId) (o : Z) (l : option Z) :=
  alloc (mkNode p o l (ObjectContent [])).
Definition new_PropertyASTNodeImpl (p : option NodeId) (o : Z) (l : option Z) :=
  alloc (mkNode p o l (PropertyContent None None)).
Definition new_ArrayASTNodeImpl (p : option NodeId) (o : Z) (l : option Z) :=
  alloc (mkNode p o l (ArrayContent [])).
Definition new_StringASTNodeImpl (p : option NodeId) (o : Z) (l : option Z) :=
  alloc (mkNode p o l (StringContent None)).
Definition new_NumberASTNodeImpl (p : option NodeId) (o : Z) (l : option Z) :=
  alloc (mkNode p o l (NumberContent None None)).
Definition new_BooleanASTNodeImpl (p : option NodeId) (b : bool) (o : Z) (l : option Z) :=
  alloc (mkNode p o l (BooleanContent b)).
Definition new_NullASTNodeImpl (p : option NodeId) (o : Z) (l : option Z) :=
  alloc (mkNode p o l NullContent).

(** [result.properties.push(x)] and [result.items.push(x)]. *)
Definition push_properties (x : option NodeId) (c : ASTContent) : ASTContent :=
  match c with
  | ObjectContent ps => ObjectContent (ps ++ [x])
  | _ => c
  end.
Definition push_items (x : option NodeId) (c : ASTContent) : ASTContent :=
  match c with
  | ArrayContent xs => ArrayContent (xs ++ [x])
  | _ => c
  end.

(** [n.value = v], [n.isInteger = b], [n.keyNode = k], [n.valueNode = v]. *)
Definition set_string_value (v : string) (c : ASTContent) : ASTContent :=
  match c with
  | StringContent _ => StringContent (Some v)
  | _ => c
  end.
Definition set_number_value (v : JSNumber) (c : ASTContent) : ASTContent :=
  match c with
  | NumberContent _ i => NumberContent (Some v) i
  | _ => c
  end.
Definition set_isInteger (b : bool) (c : ASTContent) : ASTContent :=
  match c with
  | NumberContent v _ => NumberContent v (Some b)
  | _ => c
  end.
Definition set_keyNode (k : option NodeId) (c : ASTContent) : ASTContent :=
  match c with
  | PropertyContent _ v => PropertyContent k v
  | _ => c
  end.
Definition set_valueNode (v : option NodeId) (c : ASTContent) : ASTContent :=
  match c with
  | PropertyContent k _ => PropertyContent k v
  | _ => c
  end.

(** ** [recursivelyBuildAst] *)

Definition possibleBooleanValues : list string :=
  ["y"; "Y"; "yes"; "Yes"; "YES"; "n"; "N"; "no"; "No"; "NO";
   "on"; "On"; "ON"; "off"; "Off"; "OFF"].

(** The [switch (type)] of the [Yaml.Kind.SCALAR] case: the default
    dispatch on the type the scalar classifier reports. *)
Definition buildScalarOfType (type : ScalarType) (parent : option NodeId)
    (instance : YAMLScalar) (σ : Store) : option NodeId * Store :=
  let value := scalar_value instance in
  let o := scalar_startPosition instance in
  let l := Some (scalar_endPosition instance - scalar_startPosition instance) in
  match type with
  | ScalarType_null =>
      let '(r, σ1) := new_NullASTNodeImpl parent o l σ in (Some r, σ1)
  | ScalarType_bool =>
      let '(r, σ1) :=
        new_BooleanASTNodeImpl parent (Yaml_parseYamlBoolean value) o l σ in
      (Some r, σ1)
  | ScalarType_int =>
      let '(result, σ1) := new_NumberASTNodeImpl parent o l σ in
      let σ2 := update result (set_number_value (Yaml_parseYamlInteger value)) σ1 in
      let σ3 := update result (set_isInteger true) σ2 in
      (Some result, σ3)
  | ScalarType_float =>
      let '(result, σ1) := new_NumberASTNodeImpl parent o l σ in
      let σ2 := update result (set_number_value (Yaml_parseYamlFloat value)) σ1 in
      let σ3 := update result (set_isInteger false) σ2 in
      (Some result, σ3)
  | ScalarType_string =>
      let '(result, σ1) := new_StringASTNodeImpl parent o l σ in
      let σ2 := update result (set_string_value value) σ1 in
      (Some result, σ2)
  end.

(** The [Yaml.Kind.SCALAR] case: the boolean patch, checked first, then the
    default dispatch. *)
Definition buildScalar (parent : option NodeId) (instance : YAMLScalar)
    (σ : Store) : option NodeId * Store :=
  let type := determineScalarType instance in
  let value := scalar_value instance in
  if plainScalar instance
     && negb (Z.eqb (indexOf possibleBooleanValues value) (-1))
  then
    let '(r, σ1) :=
      new_BooleanASTNodeImpl parent (parseYamlBoolean value)
        (scalar_startPosition instance)
        (Some (scalar_endPosition instance - scalar_startPosition instance)) σ in
    (Some r, σ1)
  else buildScalarOfType type parent instance σ.

(** The body of the loop over [instance.mappings]; [build] is the recursive
    call. *)
Definition mappingsBody (build : option NodeId -> YAMLNode -> Store -> option NodeId * Store)
    (result : NodeId) (mapping : YAMLNode) (σ : Store) : LoopStep Store :=
  let '(prop, σ') := build (Some result) mapping σ in
  Continue (update result (push_properties prop) σ').

(** The body of the loop over [instance.items].  [count] is the local
    variable of that name, which no statement of the loop assigns;
    [itemsLength] is [instance.items.length], [s] and [e] the positions of
    the sequence. *)
Definition itemsBody (build : option NodeId -> YAMLNode -> Store -> option NodeId * Store)
    (parent : option NodeId) (result : NodeId) (s e : Z) (itemsLength : nat)
    (count : Z) (item : option YAMLNode) (σ : Store) : LoopStep Store :=
  match item with
  | None =>
      if Z.eqb count (Z.of_nat itemsLength - 1) then Break σ
      else
        let '(n, σ') := new_NullASTNodeImpl parent s (Some (e - s)) σ in
        Continue (update result (push_items (Some n)) σ')
  | Some it =>
      let '(itemNode, σ') := build (Some result) it σ in
      Continue (update result (push_items itemNode) σ')
  end.

(** The [switch (node.kind)] of [recursivelyBuildAst], for a node that is
    present.  [None] is the [undefined] the function returns when it falls
    off its end. *)
Fixpoint recursivelyBuildAst_node (parent : option NodeId) (node : YAMLNode)
    (σ : Store) {struct node} : option NodeId * Store :=
  match node with
  | YamlMap s e mappings =>
      let '(result, σ1) := new_ObjectASTNodeImpl parent s (Some (e - s)) σ in
      let σ2 := forOf (mappingsBody recursivelyBuildAst_node result) mappings σ1 in
      (Some result, σ2)
  | YAMLMapping s e key value =>
      let '(result, σ1) :=
        new_PropertyASTNodeImpl parent (scalar_startPosition key)
          (Some (e - scalar_startPosition key)) σ in
      let '(keyNode, σ2) :=
        new_StringASTNodeImpl (Some result) (scalar_startPosition key)
          (Some (scalar_endPosition key - scalar_startPosition key)) σ1 in
      let σ3 := update keyNode (set_string_value (scalar_value key)) σ2 in
      let '(valueNode, σ4) :=
        match value with
        | Some v => recursivelyBuildAst_node (Some result) v σ3
        | None =>
            let '(n, σ') := new_NullASTNodeImpl parent s None σ3 in (Some n, σ')
        end in
      let σ5 := update result (set_keyNode (Some keyNode)) σ4 in
      let σ6 := update result (set_valueNode valueNode) σ5 in
      (Some result, σ6)
  | YAMLSequence s e items =>
      let '(result, σ1) := new_ArrayASTNodeImpl parent s (Some (e - s)) σ in
      let count := 0 in
      let σ2 :=
        forOf (itemsBody recursivelyBuildAst_node parent result s e
                 (List.length items) count)
              items σ1 in
      (Some result, σ2)
  | YAMLScalarNode instance => buildScalar parent instance σ
  | YAMLAnchorReference s e value =>
      let '(r, σ1) :=
        match value with
        | Some instance => recursivelyBuildAst_node parent instance σ
        | None => (None, σ)
        end in
      match r with
      | Some id => (Some id, σ1)
      | None =>
          let '(n, σ2) := new_NullASTNodeImpl parent s (Some (e - s)) σ1 in
          (Some n, σ2)
      end
  | YAMLIncludeRef s e value =>
      let '(result, σ1) := new_StringASTNodeImpl parent s (Some (e - s)) σ in
      let σ2 := update result (set_string_value value) σ1 in
      (Some result, σ2)
  | YAMLUnknownKind _ _ => (None, σ)
  end.

(** [recursivelyBuildAst]: the [if (!node) return;] guard, then the
    dispatch. *)
Definition recursivelyBuildAst (parent : option NodeId) (node : option YAMLNode)
    (σ : Store) : option NodeId * Store :=
  match node with
  | None => (None, σ)
  | Some n => recursivelyBuildAst_node parent n σ
  end.

End Ast.

(** ** Diagnostics and [createJSONDocument] *)

(** [ErrorCode] of [../jsonLanguageTypes]; the builder uses one value. *)
Inductive ErrorCode : Type := Undefined.

(** A raw diagnostic of the parsing collaborator ([Yaml.Error]). *)
Record YamlMark : Type := mkMark {
  mark_position : Z;
  mark_column : Z
}.

Record YamlError : Type := mkError {
  reason : string;
  isWarning : bool;
  mark : YamlMark
}.

(** The object literals the source builds: [convertError] puts [code] inside
    [location], the structural error puts it beside [location]. *)
Record Location : Type := mkLocation {
  loc_start : Z;
  loc_end : Z;
  loc_code : option ErrorCode
}.

Record Diagnostic : Type := mkDiagnostic {
  message : string;
  code : option ErrorCode;
  location : Location
}.

Definition convertError (e : YamlError) : Diagnostic :=
  {| message := reason e;
     code := None;
     location := {| loc_start := mark_position (mark e);
                    loc_end := mark_position (mark e) + mark_column (mark e);
                    loc_code := Some Undefined |} |}.

(** [localize] of the message bundle returned by [nls.loadMessageBundle()]:
    with no translated bundle configured it returns the default message it
    is given. *)
Definition localize (key message : string) : string := message.

(** A raw document: the top-level node together with the [errors] list the
    parsing collaborator attaches to it. *)
Record RawDocument : Type := mkRawDocument {
  doc_node : YAMLNode;
  doc_errors : list YamlError
}.

Definition duplicateKeyReason : string := "duplicate key".

Definition isDuplicateAndNotMergeKey (error : YamlError) (yamlText : string) : bool :=
  let errorConverted := convertError error in
  let errorStart := loc_start (location errorConverted) in
  let errorEnd := loc_end (location errorConverted) in
  if String.eqb (reason error) duplicateKeyReason
     && startsWith (js_substring yamlText errorStart errorEnd) "<<"
  then false
  else true.

(** The two [filter(...).map(...)] pipelines of [createJSONDocument]. *)
Definition isError (e : YamlError) : bool :=
  negb (String.eqb (reason e) duplicateKeyReason) && negb (isWarning e).

Definition isWarningEntry (text : string) (e : YamlError) : bool :=
  (String.eqb (reason e) duplicateKeyReason && isDuplicateAndNotMergeKey e text)
  || isWarning e.

Definition filterErrors (es : list YamlError) : list Diagnostic :=
  List.map convertError (List.filter isError es).

Definition filterWarnings (text : string) (es : list YamlError) : list Diagnostic :=
  List.map convertError (List.filter (isWarningEntry text) es).

Section Document.
Context `{Collaborators}.

(** Modelled from the spec: [SingleYAMLDocument] of [../yamlLanguageTypes],
    which is not under src/.  A document holds an optional root, the errors
    and the warnings in order and the line-start table; a new document has
    no root and no diagnostics.  [nodes] is the store its AST lives in. *)
Record SingleYAMLDocument : Type := mkDocument {
  lines : list Z;
  root : option NodeId;
  nodes : Store;
  errors : list Diagnostic;
  warnings : list Diagnostic
}.

Definition new_SingleYAMLDocument (startPositions : list Z) : SingleYAMLDocument :=
  {| lines := startPositions; root := None; nodes := emptyStore;
     errors := []; warnings := [] |}.

Definition set_root (r : option NodeId) (σ : Store) (d : SingleYAMLDocument) :=
  {| lines := lines d; root := r; nodes := σ;
     errors := errors d; warnings := warnings d |}.

Definition push_error (d : SingleYAMLDocument) (e : Diagnostic) :=
  {| lines := lines d; root := root d; nodes := nodes d;
     errors := errors d ++ [e]; warnings := warnings d |}.

Definition push_warning (d : SingleYAMLDocument) (e : Diagnostic) :=
  {| lines := lines d; root := root d; nodes := nodes d;
     errors := errors d; warnings := warnings d ++ [e] |}.

Definition structuralError (yamlDoc : RawDocument) : Diagnostic :=
  {| message := localize "Invalid symbol" "Expected a YAML object, array or literal";
     code := Some Undefined;
     location := {| loc_start := startPosition (doc_node yamlDoc);
                    loc_end := endPosition (doc_node yamlDoc);
                    loc_code := None |} |}.

Definition createJSONDocument (yamlDoc : RawDocument) (startPositions : list Z)
    (text : string) : SingleYAMLDocument :=
  let _doc := new_SingleYAMLDocument startPositions in
  let '(r, σ) := recursivelyBuildAst None (Some (doc_node yamlDoc)) (nodes _doc) in
  let _doc := set_root r σ _doc in
  let _doc :=
    match root _doc with
    | None => push_error _doc (structuralError yamlDoc)
    | Some _ => _doc
    end in
  let errors := filterErrors (doc_errors yamlDoc) in
  let warnings := filterWarnings text (doc_errors yamlDoc) in
  let _doc := fold_left push_error errors _doc in
  let _doc := fold_left push_warning warnings _doc in
  _doc.

End Document.

(** ** Custom tags and [parse] *)

(** What the source passes to [new Type(tag, { kind })]. *)
Record YamlType : Type := mkType {
  type_tag : string;
  type_kind : string
}.

(** [typeInfo[1] || 'scalar']: an absent or empty second piece gives
    ['scalar']. *)
Definition kindOrScalar (typeInfo : list string) : string :=
  match nth_error typeInfo 1 with
  | Some k => if String.eqb k "" then "scalar" else k
  | None => "scalar"
  end.

(** The body of both [customTags.map] callbacks:
    [new Type(typeInfo[0], { kind: typeInfo[1] || 'scalar' })].  The record
    holds what the constructor is given; the constructor of js-yaml accepts
    the kinds "scalar", "sequence" and "mapping" and throws for any
    other. *)
Definition typeOfTag (tag : string) : YamlType :=
  let typeInfo := js_split " "%char tag in
  mkType (nth 0 typeInfo "") (kindOrScalar typeInfo).

(** The schema, as far as [parse] touches it: its [compiledTypeMap]. *)
Record Schema : Type := mkSchema {
  compiledTypeMap : gmap string YamlType
}.

(** The second [customTags.map]: one assignment
    [compiledTypeMap[typeInfo[0]] = new Type(...)] per tag, in order. *)
Definition registerCustomTags (customTags : list string) (schema : Schema) : Schema :=
  fold_left
    (fun s tag =>
       {| compiledTypeMap :=
            <[nth 0 (js_split " "%char tag) "" := typeOfTag tag]> (compiledTypeMap s) |})
    customTags schema.

(** The collaborators of [parse]: [Schema.create] of js-yaml, [Yaml.loadAll]
    (the documents it hands to its callback, in order) and
    [getLineStartPositions]. *)
Class ParserCollaborators : Type := {
  Schema_create : list YamlType -> Schema;
  loadAll : string -> Schema -> list RawDocument;
  getLineStartPositions : string -> list Z
}.

(** Modelled from the spec: [Schema.create] of js-yaml, which is not under
    src/.  Construction validates tags against the built-in set only and
    does not make a custom tag resolvable: the registry of the new schema is
    the built-in one, whatever custom types it was given. *)
Definition Schema_create_spec (builtin : gmap string YamlType)
    (types : list YamlType) : Schema :=
  {| compiledTypeMap := builtin |}.

Definition specParserCollaborators (builtin : gmap string YamlType)
    (load : string -> Schema -> list RawDocument)
    (lineStarts : string -> list Z) : ParserCollaborators :=
  {| Schema_create := Schema_create_spec builtin;
     loadAll := load;
     getLineStartPositions := lineStarts |}.

Section Parse.
Context `{Collaborators} `{ParserCollaborators}.

Definition schemaWithAdditionalTags (customTags : list string) : Schema :=
  registerCustomTags customTags (Schema_create (List.map typeOfTag customTags)).

Definition parse (text : string) (customTags : list string) : list SingleYAMLDocument :=
  let startPositions := getLineStartPositions text in
  let schemaWithAdditionalTags := schemaWithAdditionalTags customTags in
  let yamlDocs := loadAll text schemaWithAdditionalTags in
  List.map (fun doc => createJSONDocument doc startPositions text) yamlDocs.

End Parse.

(** ** Stand-in collaborators, to run the builder on concrete inputs *)

Definition sampleDetermineScalarType (s : YAMLScalar) : ScalarType :=
  if negb (plainScalar s) then ScalarType_string
  else if existsb (String.eqb (scalar_value s)) ["null"; "Null"; "NULL"; "~"; ""]
  then ScalarType_null
  else if existsb (String.eqb (scalar_value s))
            ["true"; "True"; "TRUE"; "false"; "False"; "FALSE"]
  then ScalarType_bool
  else ScalarType_string.

Definition sampleParseBoolean (s : string) : bool :=
  existsb (String.eqb s)
    ["true"; "True"; "TRUE"; "y"; "Y"; "yes"; "Yes"; "YES"; "on"; "On"; "ON"].

Definition sampleCollaborators : Collaborators :=
  {| JSNumber := Z;
     determineScalarType := sampleDetermineScalarType;
     parseYamlBoolean := sampleParseBoolean;
     Yaml_parseYamlBoolean := sampleParseBoolean;
     Yaml_parseYamlInteger := fun _ => 0;
     Yaml_parseYamlFloat := fun _ => 0 |}.

Definition plainScalarAt (s e : Z) (v : string) : YAMLScalar :=
  {| scalar_startPosition := s; scalar_endPosition := e;
     scalar_value := v; plainScalar := true |}.

(** Two input texts: a mapping whose indented merge key is repeated, and a
    mapping with an ordinary repeated key. *)
Definition lineFeed : string := String (ascii_of_nat 10) EmptyString.

Definition mergeKeyText : string :=
  String.concat lineFeed ["a:"; "  <<: *b"; "  <<: *c"].

Definition duplicateKeyText : string :=
  String.concat lineFeed ["a: 1"; "a: 2"].

(** ** The vocabulary of the properties *)

(** A merge-key duplicate is an entry whose reason is exactly
    "duplicate key" and whose source text, at the location [convertError]
    gives it, begins with "<<". *)
Definition sourceTextAt (text : string) (e : YamlError) : string :=
  js_substring text (loc_start (location (convertError e)))
    (loc_end (location (convertError e))).

Definition isMergeKeyDuplicate (text : string) (e : YamlError) : bool :=
  String.eqb (reason e) "duplicate key" && startsWith (sourceTextAt text e) "<<".

(** [convertedIn n top]: converting [top] makes a recursive call on [n].  One
    constructor per recursive call of the source: on each mapping of a map,
    on the value of a mapping, on each item of a sequence that is present,
    and on the target of an anchor reference. *)
Inductive convertedIn (n : YAMLNode) : YAMLNode -> Prop :=
| convertedIn_here : convertedIn n n
| convertedIn_mappings s e mappings m :
    In m mappings -> convertedIn n m -> convertedIn n (YamlMap s e mappings)
| convertedIn_value s e key v :
    convertedIn n v -> convertedIn n (YAMLMapping s e key (Some v))
| convertedIn_items s e items it :
    In (Some it) items -> convertedIn n it -> convertedIn n (YAMLSequence s e items)
| convertedIn_anchor s e v :
    convertedIn n v -> convertedIn n (YAMLAnchorReference s e (Some v)).

Definition isMapOrSequence (n : YAMLNode) : Prop :=
  match n with
  | YamlMap _ _ _ | YAMLSequence _ _ _ => True
  | _ => False
  end.

Section Vocabulary.
Context `{Collaborators}.

(** [preserves σ σ']: every object that exists in [σ] is untouched in
    [σ'], and no identifier is reused. *)
Definition preserves (σ σ' : Store) : Prop :=
  (next σ <= next σ')%nat /\
  forall i, (i < next σ)%nat -> heap σ' !! i = heap σ !! i.

(** The node [id] exists in [σ] with the given parent, offset and length,
    and its content satisfies [C]. *)
Definition nodeAt (σ : Store) (id : NodeId) (p : option NodeId) (o : Z)
    (l : option Z) (C : ASTContent -> Prop) : Prop :=
  (id < next σ)%nat /\
  exists c, heap σ !! id = Some (mkNode p o l c) /\ C c.

Definition isObject (c : ASTContent) : Prop := exists ps, c = ObjectContent ps.
Definition isArray (c : ASTContent) : Prop := exists xs, c = ArrayContent xs.

(** [preservesExcept r σ σ']: the same, but for the object [r], whose content
    may have been assigned to. *)
Definition preservesExcept (r : NodeId) (σ σ' : Store) : Prop :=
  (next σ <= next σ')%nat /\
  forall i, (i < next σ)%nat -> i <> r -> heap σ' !! i = heap σ !! i.

(** The AST node [a] is an Object, for a raw Map, or an Array, for a raw
    Sequence, that starts at the raw node's start and whose length is the
    raw node's end minus its start. *)
Definition spansRaw (n : YAMLNode) (a : ASTNode) : Prop :=
  offset a = startPosition n /\
  length a = Some (endPosition n - startPosition n) /\
  match n with
  | YamlMap _ _ _ => isObject (content a)
  | YAMLSequence _ _ _ => isArray (content a)
  | _ => False
  end.

(** The structural error, when the root is absent. *)
Definition structuralErrors (yamlDoc : RawDocument) (r : option NodeId) : list Diagnostic :=
  match r with
  | None => [structuralError yamlDoc]
  | Some _ => []
  end.

End Vocabulary.

Section Disposition.
Context `{Collaborators}.
Variables (node : YAMLNode) (startPositions : list Z) (text : string).

(** The document built from the top-level node [node] carrying the raw
    diagnostics [es]. *)
Definition documentOf (es : list YamlError) : SingleYAMLDocument :=
  createJSONDocument (mkRawDocument node es) startPositions text.

(** What happens to the entry [e] that stands between [pre] and [post] in
    the raw list: it is converted into the error list, at its place and
    nowhere else; or into the warning list, at its place and nowhere else;
    or the document is the one built without it. *)
Definition becomesError (pre : list YamlError) (e : YamlError)
    (post : list YamlError) : Prop :=
  errors (documentOf (pre ++ e :: post))
  = errors (documentOf pre) ++ convertError e :: filterErrors post /\
  warnings (documentOf (pre ++ e :: post)) = warnings (documentOf (pre ++ post)).

Definition becomesWarning (pre : list YamlError) (e : YamlError)
    (post : list YamlError) : Prop :=
  warnings (documentOf (pre ++ e :: post))
  = warnings (documentOf pre) ++ convertError e :: warnings (documentOf post) /\
  errors (documentOf (pre ++ e :: post)) = errors (documentOf (pre ++ post)).

Definition isDropped (pre : list YamlError) (e : YamlError)
    (post : list YamlError) : Prop :=
  documentOf (pre ++ e :: post) = documentOf (pre ++ post).

(** The number of diagnostics of a list whose message is [m]. *)
Definition countMessage (m : string) (ds : list Diagnostic) : nat :=
  List.length (List.filter (fun d => String.eqb (message d) m) ds).

End Disposition.

(** ** The vocabulary of the further properties *)

(** A node whose kind the [switch] does not handle. *)
Definition unknownKind (n : YAMLNode) : bool :=
  match n with
  | YAMLUnknownKind _ _ => true
  | _ => false
  end.

(** The offset and the length the source gives to the node a conversion
    returns: the raw node's start and extent for a map, a sequence, a scalar
    and an include reference; from the key's start to the mapping's end for
    a mapping; for an anchor reference, those of the node its target
    converts to, or the reference's own when the target converts to
    nothing. *)
Fixpoint builtSpan (n : YAMLNode) : Z * Z :=
  match n with
  | YamlMap s e _ | YAMLSequence s e _ | YAMLIncludeRef s e _
  | YAMLUnknownKind s e => (s, e - s)
  | YAMLMapping _ e key _ =>
      (scalar_startPosition key, e - scalar_startPosition key)
  | YAMLScalarNode i =>
      (scalar_startPosition i, scalar_endPosition i - scalar_startPosition i)
  | YAMLAnchorReference s e (Some target) =>
      if unknownKind target then (s, e - s) else builtSpan target
  | YAMLAnchorReference s e None => (s, e - s)
  end.

(** The text has no space. *)
Fixpoint spaceFree (s : string) : bool :=
  match s with
  | EmptyString => true
  | String c rest => negb (Ascii.eqb c " "%char) && spaceFree rest
  end.

(** The sequence consists of one item, which is absent. *)
Definition onlyAbsent (items : list (option YAMLNode)) : bool :=
  match items with
  | [None] => true
  | _ => false
  end.

Section FurtherVocabulary.
Context `{Collaborators}.

(** The content of the leaf the default dispatch builds for a scalar of the
    given type, once the assignments that follow the constructor are
    done. *)
Definition scalarContent (type : ScalarType) (value : string) : ASTContent :=
  match type with
  | ScalarType_null => NullContent
  | ScalarType_bool => BooleanContent (Yaml_parseYamlBoolean value)
  | ScalarType_int => NumberContent (Some (Yaml_parseYamlInteger value)) (Some true)
  | ScalarType_float => NumberContent (Some (Yaml_parseYamlFloat value)) (Some false)
  | ScalarType_string => StringContent (Some value)
  end.

(** The node [id] exists in [σ] and its parent satisfies [P]. *)
Definition parentAt (σ : Store) (id : NodeId) (P : option NodeId -> Prop) : Prop :=
  exists a, heap σ !! id = Some a /\ P (parent a).

(** Every identity from [lo] up to the next free one is allocated in [σ],
    and the parent of each of these nodes is [p] or a node of the same range
    that was allocated before it. *)
Definition parentsOlder (p : option NodeId) (lo : nat) (σ : Store) : Prop :=
  forall id, (lo <= id < next σ)%nat ->
    parentAt σ id (fun q => q = p \/ exists r, q = Some r /\ (lo <= r < id)%nat).

(** How the entry [x] of an Object's property list, or of an Array's item
    list, relates to the raw node [m] it was built from, in the store [σ]:
    the entry is absent exactly when [m] is of an unknown kind; otherwise it
    is a node allocated after [r], whose parent is [r] and whose span is the
    one the conversion of [m] gives. *)
Definition builtFrom (σ : Store) (r : NodeId) (m : YAMLNode) (x : option NodeId) : Prop :=
  match x with
  | None => unknownKind m = true
  | Some id =>
      unknownKind m = false /\ (r < id)%nat /\
      exists c,
        heap σ !! id
        = Some (mkNode (Some r) (builtSpan m).1 (Some (builtSpan m).2) c)
  end.

(** The same for an item of a sequence, which may be absent: an absent item
    gives a Null node with the parent and the span of the sequence. *)
Definition itemBuiltFrom (σ : Store) (p : option NodeId) (r : NodeId) (s e : Z)
    (item : option YAMLNode) (x : option NodeId) : Prop :=
  match item with
  | Some it => builtFrom σ r it x
  | None =>
      exists id, x = Some id /\ (r < id)%nat /\
        heap σ !! id = Some (mkNode p s (Some (e - s)) NullContent)
  end.

End FurtherVocabulary.

(** ** The vocabulary of the revised properties *)

(** The text of the key an entry points at: the source text from the
    position of its mark on. *)
Definition keyTextAt (text : string) (e : YamlError) : string :=
  js_substring text (mark_position (mark e)) (Z.of_nat (String.length text)).

(** The number of raw entries whose reason is [r]. *)
Definition countReason (r : string) (es : list YamlError) : nat :=
  List.length (List.filter (fun x => String.eqb (reason x) r) es).

(** A mapping whose merge key is repeated at the start of a line. *)
Definition topLevelMergeKeyText : string :=
  String.concat lineFeed ["<<: *base"; "<<: *other"; ""].

(** The kinds the type constructor accepts. *)
Definition validKinds : list string := ["scalar"; "sequence"; "mapping"].

(** * Properties *)

(** ** Induction on raw nodes *)

Section YAMLNode_nested_ind.
Variable P : YAMLNode -> Prop.
Hypothesis HMap : forall s e mappings, Forall P mappings -> P (YamlMap s e mappings).
Hypothesis HMapping : forall s e key value,
  (forall v, value = Some v -> P v) -> P (YAMLMapping s e key value).
Hypothesis HSequence : forall s e items,
  Forall (fun item => forall it, item = Some it -> P it) items ->
  P (YAMLSequence s e items).
Hypothesis HScalar : forall instance, P (YAMLScalarNode instance).
Hypothesis HAnchor : forall s e value,
  (forall v, value = Some v -> P v) -> P (YAMLAnchorReference s e value).
Hypothesis HInclude : forall s e value, P (YAMLIncludeRef s e value).
Hypothesis HUnknown : forall s e, P (YAMLUnknownKind s e).

Lemma YAMLNode_nested_ind : forall n, P n.
Proof.
  fix IH 1. intros [s e mappings|s e key value|s e items|instance|s e value|s e value|s e].
  - apply HMap. induction mappings as [|x l IHl]; constructor; [apply IH|exact IHl].
  - apply HMapping. destruct value as [w|]; intros v E;
      [injection E as <-; apply IH|discriminate E].
  - apply HSequence. induction items as [|x l IHl]; constructor; [|exact IHl].
    destruct x as [w|]; intros it E; [injection E as <-; apply IH|discriminate E].
  - apply HScalar.
  - apply HAnchor. destruct value as [w|]; intros v E;
      [injection E as <-; apply IH|discriminate E].
  - apply HInclude.
  - apply HUnknown.
Qed.

End YAMLNode_nested_ind.

(** ** Loops *)

Lemma forOf_invariant {A S : Type} (I : S -> Prop) (Q : A -> Prop)
    (body : A -> S -> LoopStep S) (l : list A) :
  Forall Q l ->
  (forall x s, Q x -> I s -> I (stepState (body x s))) ->
  forall s, I s -> I (forOf body l s).
Proof.
  intros HQ Hbody. induction HQ as [|x l Hx _ IH]; intros s Hs; simpl.
  - exact Hs.
  - specialize (Hbody x s Hx Hs). destruct (body x s) as [s'|s']; simpl in Hbody.
    + apply IH, Hbody.
    + exact Hbody.
Qed.

Lemma Forall_trivial {A : Type} (l : list A) : Forall (fun _ => True) l.
Proof. induction l; constructor; auto. Qed.

(** ** The store *)

Section StoreFacts.
Context `{Collaborators}.

Lemma preserves_refl σ : preserves σ σ.
Proof. split; auto. Qed.

Lemma preserves_trans σ1 σ2 σ3 :
  preserves σ1 σ2 -> preserves σ2 σ3 -> preserves σ1 σ3.
Proof.
  intros [Hn1 Hh1] [Hn2 Hh2]. split; [lia|].
  intros i Hi. rewrite Hh2 by lia. apply Hh1, Hi.
Qed.

Lemma alloc_next n σ : next (alloc n σ).2 = S (next σ).
Proof. reflexivity. Qed.

Lemma alloc_id n σ : (alloc n σ).1 = next σ.
Proof. reflexivity. Qed.

Lemma alloc_lookup n σ : heap (alloc n σ).2 !! next σ = Some n.
Proof. simpl. apply lookup_insert_eq. Qed.

Lemma alloc_preserves n σ : preserves σ (alloc n σ).2.
Proof.
  split; simpl; [lia|]. intros i Hi. apply lookup_insert_ne. lia.
Qed.

Lemma update_next id f σ : next (update id f σ) = next σ.
Proof. reflexivity. Qed.

Lemma update_lookup id f σ :
  heap (update id f σ) !! id = setContent f <$> heap σ !! id.
Proof. simpl. apply lookup_alter_eq. Qed.

Lemma update_lookup_ne id f σ i :
  id <> i -> heap (update id f σ) !! i = heap σ !! i.
Proof. intros Hne. simpl. apply lookup_alter_ne, Hne. Qed.

Lemma update_preserves σ0 id f σ :
  (next σ0 <= id)%nat -> preserves σ0 σ -> preserves σ0 (update id f σ).
Proof.
  intros Hid [Hn Hh]. split; simpl; [exact Hn|].
  intros i Hi. rewrite lookup_alter_ne by lia. apply Hh, Hi.
Qed.

(** The same facts on the unfolded stores that [simpl] produces. *)
Lemma preserves_eta σ0 σ :
  preserves σ0 σ -> preserves σ0 {| heap := heap σ; next := next σ |}.
Proof. destruct σ. auto. Qed.

Lemma preserves_alloc_r σ0 h nx n :
  preserves σ0 {| heap := h; next := nx |} ->
  preserves σ0 {| heap := <[nx := n]> h; next := S nx |}.
Proof.
  intros Hp. apply (preserves_trans _ _ _ Hp (alloc_preserves n (mkStore h nx))).
Qed.

Lemma preserves_update_r σ0 h nx id f :
  (next σ0 <= id)%nat ->
  preserves σ0 {| heap := h; next := nx |} ->
  preserves σ0 {| heap := alter (setContent f) id h; next := nx |}.
Proof. intros Hid Hp. apply (update_preserves σ0 id f (mkStore h nx) Hid Hp). Qed.

Ltac solve_preserves :=
  repeat first
    [ assumption
    | apply preserves_refl
    | eapply preserves_trans; [eassumption|eassumption]
    | apply preserves_alloc_r
    | apply preserves_update_r; [simpl; lia|]
    | progress (apply preserves_eta) ].

Lemma buildScalarOfType_preserves type p instance σ :
  preserves σ (buildScalarOfType type p instance σ).2.
Proof. destruct type; simpl; solve_preserves. Qed.

Lemma buildScalar_preserves p instance σ :
  preserves σ (buildScalar p instance σ).2.
Proof.
  unfold buildScalar.
  destruct (plainScalar instance && _).
  - simpl. solve_preserves.
  - apply buildScalarOfType_preserves.
Qed.

(** Name the result of the recursive call in the goal and instantiate the
    induction hypothesis [IH] at that call. *)
Ltac name_recursive_call IH x r σ'' :=
  match goal with
  | |- context [recursivelyBuildAst_node ?q x ?σ'] =>
      specialize (IH q σ');
      destruct (recursivelyBuildAst_node q x σ') as [r σ'']
  end.

(** Building a subtree allocates new objects and assigns to them only. *)
Lemma recursivelyBuildAst_node_preserves node :
  forall p σ, preserves σ (recursivelyBuildAst_node p node σ).2.
Proof.
  induction node as
    [s e mappings IH | s e key value IH | s e items IH | instance
    | s e value IH | s e value | s e] using YAMLNode_nested_ind;
    intros p σ; simpl.
  - apply (forOf_invariant (preserves σ) _ _ _ IH).
    + intros x σ' Hx Hσ'. unfold mappingsBody. name_recursive_call Hx x r σ''.
      simpl in *. solve_preserves.
    + solve_preserves.
  - destruct value as [v|].
    + specialize (IH v eq_refl).
      match goal with
      | |- context [recursivelyBuildAst_node _ v ?σ3] =>
          assert (H3 : preserves σ σ3) by solve_preserves
      end.
      name_recursive_call IH v r σ4. simpl in *. solve_preserves.
    + simpl. solve_preserves.
  - apply (forOf_invariant (preserves σ) _ _ _ IH).
    + intros [it|] σ' Hx Hσ'; unfold itemsBody.
      * specialize (Hx it eq_refl). name_recursive_call Hx it r σ''.
        simpl in *. solve_preserves.
      * case_match; simpl; solve_preserves.
    + solve_preserves.
  - apply buildScalar_preserves.
  - destruct value as [v|].
    + specialize (IH v eq_refl). name_recursive_call IH v r σ1.
      destruct r as [id|]; simpl in *; solve_preserves.
    + simpl. solve_preserves.
  - solve_preserves.
  - apply preserves_refl.
Qed.

End StoreFacts.

(** Name the result of the recursive call in the goal, with the fact that it
    preserves the store it starts from. *)
Ltac frame_recursive_call x r σ'' Hx :=
  match goal with
  | |- context [recursivelyBuildAst_node ?q x ?σ'] =>
      pose proof (recursivelyBuildAst_node_preserves x q σ') as Hx;
      destruct (recursivelyBuildAst_node q x σ') as [r σ'']
  end.

(** ** Spans of objects and arrays *)

Section Spans.
Context `{Collaborators}.

Lemma nodeAt_alloc p o l c (C : ASTContent -> Prop) h nx :
  C c -> nodeAt {| heap := <[nx := mkNode p o l c]> h; next := S nx |} nx p o l C.
Proof.
  intros HC. split; simpl; [lia|]. exists c. split; [apply lookup_insert_eq|exact HC].
Qed.

Lemma nodeAt_preserves σ σ' id p o l C :
  preserves σ σ' -> nodeAt σ id p o l C -> nodeAt σ' id p o l C.
Proof.
  intros [Hn Hh] [Hid (c & Hc & HC)]. split; [lia|].
  exists c. rewrite Hh by exact Hid. auto.
Qed.

Lemma nodeAt_update σ id p o l (C : ASTContent -> Prop) f :
  (forall c, C c -> C (f c)) ->
  nodeAt σ id p o l C -> nodeAt (update id f σ) id p o l C.
Proof.
  intros Hf [Hid (c & Hc & HC)]. split; [exact Hid|].
  exists (f c). rewrite update_lookup, Hc. split; [reflexivity|auto].
Qed.

Lemma push_properties_isObject x c : isObject c -> isObject (push_properties x c).
Proof. intros [ps ->]. simpl. eexists; reflexivity. Qed.

Lemma push_items_isArray x c : isArray c -> isArray (push_items x c).
Proof. intros [xs ->]. simpl. eexists; reflexivity. Qed.

Lemma build_YamlMap_nodeAt p s e mappings σ :
  let res := recursivelyBuildAst_node p (YamlMap s e mappings) σ in
  res.1 = Some (next σ) /\ nodeAt res.2 (next σ) p s (Some (e - s)) isObject.
Proof.
  simpl. split; [reflexivity|].
  apply (forOf_invariant
           (fun σ' => nodeAt σ' (next σ) p s (Some (e - s)) isObject)
           _ _ _ (Forall_trivial mappings)).
  - intros x σ' _ Hσ'. unfold mappingsBody.
    frame_recursive_call x r σ'' Hx.
    simpl in *. apply nodeAt_update; [apply push_properties_isObject|].
    eapply nodeAt_preserves; eauto.
  - apply nodeAt_alloc. exists []. reflexivity.
Qed.

Lemma build_YAMLSequence_nodeAt p s e items σ :
  let res := recursivelyBuildAst_node p (YAMLSequence s e items) σ in
  res.1 = Some (next σ) /\ nodeAt res.2 (next σ) p s (Some (e - s)) isArray.
Proof.
  simpl. split; [reflexivity|].
  apply (forOf_invariant
           (fun σ' => nodeAt σ' (next σ) p s (Some (e - s)) isArray)
           _ _ _ (Forall_trivial items)).
  - intros [it|] σ' _ Hσ'; unfold itemsBody.
    + frame_recursive_call it r σ'' Hx.
      simpl in *. apply nodeAt_update; [apply push_items_isArray|].
      eapply nodeAt_preserves; eauto.
    + case_match; simpl; [exact Hσ'|].
      apply (nodeAt_update _ _ _ _ _ _ _ (push_items_isArray _)).
      eapply nodeAt_preserves; [|exact Hσ'].
      apply (alloc_preserves _ σ').
  - apply nodeAt_alloc. exists []. reflexivity.
Qed.

(** The loop facts, for any loop body that leaves every object but [r]
    alone. *)
Lemma preservesExcept_trans r σ1 σ2 σ3 :
  preservesExcept r σ1 σ2 -> preservesExcept r σ2 σ3 -> preservesExcept r σ1 σ3.
Proof.
  intros [Hn1 Hh1] [Hn2 Hh2]. split; [lia|].
  intros i Hi Hr. rewrite Hh2 by (lia || exact Hr). apply Hh1; assumption.
Qed.

Lemma preserves_update_except r f σ σ' :
  preserves σ σ' -> preservesExcept r σ (update r f σ').
Proof.
  intros [Hn Hh]. split; [exact Hn|].
  intros i Hi Hr. rewrite update_lookup_ne by congruence. apply Hh, Hi.
Qed.

Lemma forOf_preservesExcept {A : Type} r (body : A -> Store -> LoopStep Store) l :
  (forall x σ, preservesExcept r σ (stepState (body x σ))) ->
  forall σ, preservesExcept r σ (forOf body l σ).
Proof.
  intros Hbody. induction l as [|x l IH]; intros σ; simpl.
  - split; auto.
  - specialize (Hbody x σ). destruct (body x σ) as [σ'|σ']; simpl in Hbody.
    + eapply preservesExcept_trans; [exact Hbody|apply IH].
    + exact Hbody.
Qed.

(** If no iteration breaks, the element [x0] of the list is processed, and
    what its iteration allocates is still there when the loop ends. *)
Lemma forOf_reaches {A : Type} r (body : A -> Store -> LoopStep Store)
    (Q : ASTNode -> Prop) (x0 : A) l :
  (forall x σ, preservesExcept r σ (stepState (body x σ))) ->
  (forall x σ, In x l -> body x σ = Continue (stepState (body x σ))) ->
  (forall σ, (r < next σ)%nat ->
     exists id a,
       (next σ <= id < next (stepState (body x0 σ)))%nat /\
       heap (stepState (body x0 σ)) !! id = Some a /\ Q a) ->
  In x0 l ->
  forall σ, (r < next σ)%nat ->
    exists id a,
      (next σ <= id < next (forOf body l σ))%nat /\
      heap (forOf body l σ) !! id = Some a /\ Q a.
Proof.
  intros Hframe Hcont Hx0. induction l as [|x l IH]; intros Hin σ Hr; [destruct Hin|].
  simpl. rewrite (Hcont x σ (or_introl eq_refl)).
  assert (Hcont' : forall y σ', In y l -> body y σ' = Continue (stepState (body y σ'))).
  { intros y σ' Hy. apply Hcont. right. exact Hy. }
  destruct (Hframe x σ) as [Hn _].
  destruct Hin as [->|Hin].
  - destruct (Hx0 σ Hr) as (id & a & Hid & Ha & HQ).
    destruct (forOf_preservesExcept r body l Hframe (stepState (body x0 σ)))
      as [Hn' Hh'].
    exists id, a. split; [lia|]. split; [|exact HQ].
    rewrite Hh' by lia. exact Ha.
  - destruct (IH Hcont' Hin (stepState (body x σ))) as (id & a & Hid & Ha & HQ); [lia|].
    exists id, a. split; [lia|]. split; assumption.
Qed.

Lemma mappingsBody_preservesExcept result m σ :
  preservesExcept result σ
    (stepState (mappingsBody recursivelyBuildAst_node result m σ)).
Proof.
  unfold mappingsBody. frame_recursive_call m r σ' Hm. simpl in *.
  apply preserves_update_except, Hm.
Qed.

Lemma itemsBody_preservesExcept p result s e len count item σ :
  preservesExcept result σ
    (stepState (itemsBody recursivelyBuildAst_node p result s e len count item σ)).
Proof.
  unfold itemsBody. destruct item as [it|].
  - frame_recursive_call it r σ' Hit. simpl in *.
    apply preserves_update_except, Hit.
  - destruct (Z.eqb count _); simpl.
    + split; auto.
    + apply preserves_update_except, (alloc_preserves _ σ).
Qed.

(** A present item never breaks the loop, and an absent one breaks it only
    in a sequence of one item. *)
Lemma itemsBody_continues p result s e items it :
  In (Some it) items ->
  forall x σ, In x items ->
    let step :=
      itemsBody recursivelyBuildAst_node p result s e (List.length items) 0 x σ in
    step = Continue (stepState step).
Proof.
  intros Hit x σ Hx step. subst step. unfold itemsBody. destruct x as [y|].
  - destruct (recursivelyBuildAst_node (Some result) y σ). reflexivity.
  - destruct (Z.eqb_spec 0 (Z.of_nat (List.length items) - 1)) as [Hlen|Hlen];
      [|reflexivity].
    destruct items as [|z [|z' items]]; simpl in Hlen; try lia.
    destruct Hit as [->|[]]. destruct Hx as [Hx|[]]. discriminate Hx.
Qed.

(** Every raw Map and Sequence node reached by the conversion of [top] has
    its Object or Array, with its span, in the store the conversion of [top]
    returns. *)
Lemma convertedIn_spansRaw n top :
  convertedIn n top -> isMapOrSequence n ->
  forall p σ,
    let res := recursivelyBuildAst_node p top σ in
    exists id a,
      (next σ <= id < next res.2)%nat /\ heap res.2 !! id = Some a /\ spansRaw n a.
Proof.
  intros Hconv Hkind.
  induction Hconv as [|s e mappings m Hin _ IH|s e key v _ IH
                      |s e items it Hin _ IH|s e v _ IH]; intros p σ res; subst res.
  - destruct n as [s e mappings| |s e items| | | |]; try contradiction.
    + destruct (build_YamlMap_nodeAt p s e mappings σ) as [_ [Hid (c & Hc & HC)]].
      exists (next σ), (mkNode p s (Some (e - s)) c).
      split; [lia|]. split; [exact Hc|]. repeat split. exact HC.
    + destruct (build_YAMLSequence_nodeAt p s e items σ) as [_ [Hid (c & Hc & HC)]].
      exists (next σ), (mkNode p s (Some (e - s)) c).
      split; [lia|]. split; [exact Hc|]. repeat split. exact HC.
  - simpl.
    destruct (forOf_reaches (next σ) (mappingsBody recursivelyBuildAst_node (next σ))
                (spansRaw n) m mappings)
      with (σ := (alloc (mkNode p s (Some (e - s)) (ObjectContent [])) σ).2)
      as (id & a & Hid & Ha & HQ).
    + intros x σ'. apply mappingsBody_preservesExcept.
    + intros x σ' _. unfold mappingsBody.
      destruct (recursivelyBuildAst_node (Some (next σ)) x σ'). reflexivity.
    + intros σ' Hr. unfold mappingsBody.
      destruct (IH (Some (next σ)) σ') as (id & a & Hid & Ha & HQ).
      destruct (recursivelyBuildAst_node (Some (next σ)) m σ') as [r σ''].
      simpl in *. exists id, a. split; [lia|]. split; [|exact HQ].
      rewrite lookup_alter_ne by lia. exact Ha.
    + exact Hin.
    + simpl. lia.
    + simpl in Hid. exists id, a. split; [lia|]. split; assumption.
  - simpl.
    match goal with
    | |- context [recursivelyBuildAst_node ?q v ?σ3] =>
        destruct (IH q σ3) as (id & a & Hid & Ha & HQ);
        destruct (recursivelyBuildAst_node q v σ3) as [r σ4]
    end.
    simpl in *. exists id, a. split; [lia|]. split; [|exact HQ].
    rewrite !lookup_alter_ne by lia. exact Ha.
  - simpl.
    destruct (forOf_reaches (next σ)
                (itemsBody recursivelyBuildAst_node p (next σ) s e (List.length items) 0)
                (spansRaw n) (Some it) items)
      with (σ := (alloc (mkNode p s (Some (e - s)) (ArrayContent [])) σ).2)
      as (id & a & Hid & Ha & HQ).
    + intros x σ'. apply itemsBody_preservesExcept.
    + intros x σ' Hx. apply (itemsBody_continues p (next σ) s e items it Hin x σ' Hx).
    + intros σ' Hr. unfold itemsBody.
      destruct (IH (Some (next σ)) σ') as (id & a & Hid & Ha & HQ).
      destruct (recursivelyBuildAst_node (Some (next σ)) it σ') as [r σ''].
      simpl in *. exists id, a. split; [lia|]. split; [|exact HQ].
      rewrite lookup_alter_ne by lia. exact Ha.
    + exact Hin.
    + simpl. lia.
    + simpl in Hid. exists id, a. split; [lia|]. split; assumption.
  - simpl. destruct (IH p σ) as (id & a & Hid & Ha & HQ).
    destruct (recursivelyBuildAst_node p v σ) as [[r|] σ1]; simpl in *.
    + exists id, a. split; [lia|]. split; assumption.
    + exists id, a. split; [lia|]. split; [|exact HQ].
      rewrite lookup_insert_ne by lia. exact Ha.
Qed.

End Spans.

(** ** Absent sequence items and omitted mapping values *)

Section AbsentItems.
Context `{Collaborators}.

(** When the test [count === instance.items.length - 1] is false, the loop
    over the items never leaves early: every item, absent or not, adds one
    entry to the array. *)
Lemma itemsBody_keeps_every_item parent result s e len rest :
  Z.eqb 0 (Z.of_nat len - 1) = false ->
  forall σ' p o l xs,
    (result < next σ')%nat ->
    heap σ' !! result = Some (mkNode p o l (ArrayContent xs)) ->
    exists xs',
      heap (forOf (itemsBody recursivelyBuildAst_node parent result s e len 0)
              rest σ') !! result
      = Some (mkNode p o l (ArrayContent xs')) /\
      List.length xs' = (List.length xs + List.length rest)%nat.
Proof.
  intros Hcount. induction rest as [|item rest IH]; intros σ' p o l xs Hlt Hres.
  - exists xs. simpl. split; [exact Hres|lia].
  - simpl. unfold itemsBody at 1. destruct item as [it|].
    + frame_recursive_call it r σ'' Hx. simpl in Hx. destruct Hx as [Hn Hh].
      destruct (IH (update result (push_items r) σ'') p o l (xs ++ [r])%list)
        as (xs' & Hxs' & Hlen).
      * simpl. lia.
      * rewrite update_lookup, Hh, Hres by exact Hlt. reflexivity.
      * exists xs'. split; [exact Hxs'|].
        rewrite Hlen, length_app. simpl. lia.
    + rewrite Hcount.
      destruct (IH (update result (push_items (Some (next σ')))
                      (alloc (mkNode parent s (Some (e - s)) NullContent) σ').2)
                  p o l (xs ++ [Some (next σ')])%list)
        as (xs' & Hxs' & Hlen).
      * simpl. lia.
      * rewrite update_lookup. simpl.
        rewrite lookup_insert_ne by lia. rewrite Hres. reflexivity.
      * exists xs'. split; [exact Hxs'|].
        rewrite Hlen, length_app. simpl. lia.
Qed.

Lemma sequence_keeps_every_item parent s e a b rest σ :
  let items := a :: b :: rest in
  let res := recursivelyBuildAst parent (Some (YAMLSequence s e items)) σ in
  exists xs,
    heap res.2 !! next σ
    = Some (mkNode parent s (Some (e - s)) (ArrayContent xs)) /\
    List.length xs = List.length items.
Proof.
  intros items res. subst res items. simpl recursivelyBuildAst.
  cbn [recursivelyBuildAst_node new_ArrayASTNodeImpl alloc].
  destruct (itemsBody_keeps_every_item parent (next σ) s e
              (List.length (a :: b :: rest)) (a :: b :: rest))
    with (σ' := {| heap := <[next σ := mkNode parent s (Some (e - s)) (ArrayContent [])]> (heap σ);
                   next := S (next σ) |})
         (p := parent) (o := s) (l := Some (e - s)) (xs := @nil (option NodeId))
    as (xs' & Hxs' & Hlen).
  - simpl List.length. apply Z.eqb_neq. lia.
  - simpl. lia.
  - simpl. apply lookup_insert_eq.
  - exists xs'. split; [exact Hxs'|exact Hlen].
Qed.

(** The Null node built for an omitted mapping value: it is allocated right
    after the Property and its key, with the parent the Property itself was
    given, the mapping's start as offset and no length. *)
Lemma mapping_without_value parent s e key σ :
  let res := recursivelyBuildAst parent (Some (YAMLMapping s e key None)) σ in
  let property := next σ in
  let keyNode := S (next σ) in
  let null := S (S (next σ)) in
  res.1 = Some property /\
  heap res.2 !! property
  = Some (mkNode parent (scalar_startPosition key)
            (Some (e - scalar_startPosition key))
            (PropertyContent (Some keyNode) (Some null))) /\
  heap res.2 !! null = Some (mkNode parent s None NullContent).
Proof.
  simpl. split; [reflexivity|]. split.
  - rewrite lookup_alter_eq, lookup_alter_eq.
    rewrite lookup_insert_ne by lia. rewrite lookup_alter_ne by lia.
    rewrite lookup_insert_ne by lia. rewrite lookup_insert_eq. reflexivity.
  - rewrite !lookup_alter_ne by lia. apply lookup_insert_eq.
Qed.

End AbsentItems.

(** C1.  What the code does with a sequence of two or more items: the test
    that guards the [break] compares [count], which is never incremented,
    with [items.length - 1], so no item is dropped and the array has as many
    items as the sequence, a trailing absent item included.  On a scalar
    followed by an absent item, the array holds two items and the second is
    a Null node spanning the sequence. *)
Theorem C1_trailing_absent_item_is_kept :
  (forall (H : Collaborators) parent s e a b rest σ,
     let items := a :: b :: rest in
     let res := recursivelyBuildAst parent (Some (YAMLSequence s e items)) σ in
     exists xs,
       heap res.2 !! next σ
       = Some (mkNode parent s (Some (e - s)) (ArrayContent xs)) /\
       List.length xs = List.length items) /\
  (let items := [Some (YAMLScalarNode (plainScalarAt 2 3 "a")); None] in
   let res :=
     @recursivelyBuildAst sampleCollaborators None
       (Some (YAMLSequence 0 10 items)) emptyStore in
   res.1 = Some 0%nat /\
   heap res.2 !! 0%nat
   = Some (mkNode None 0 (Some 10) (ArrayContent [Some 1%nat; Some 2%nat])) /\
   heap res.2 !! 2%nat = Some (mkNode None 0 (Some 10) NullContent)).
Proof.
  split.
  - intros H. apply sequence_keeps_every_item.
  - vm_compute. repeat split.
Qed.

(** C3.  What the code does for a mapping whose value is absent: the Null
    node that becomes the Property's value starts at the mapping's start,
    but the constructor is called without a length, so the node carries no
    length, and in particular not the mapping's extent. *)
Theorem C3_omitted_value_null_has_no_length :
  forall (H : Collaborators) parent s e key σ,
    let res := recursivelyBuildAst parent (Some (YAMLMapping s e key None)) σ in
    exists property keyNode null n,
      res.1 = Some property /\
      (exists p o l,
         heap res.2 !! property
         = Some (mkNode p o l (PropertyContent keyNode (Some null)))) /\
      heap res.2 !! null = Some n /\
      content n = NullContent /\
      offset n = s /\
      length n = None /\
      length n <> Some (e - s).
Proof.
  intros H parent s e key σ res.
  destruct (mapping_without_value parent s e key σ) as (Hr & Hp & Hn).
  exists (next σ), (Some (S (next σ))), (S (S (next σ))),
    (mkNode parent s None NullContent).
  split; [exact Hr|]. split; [eauto|]. split; [exact Hn|].
  simpl. repeat split; congruence.
Qed.

(** C7.  What the code does with the parent of a synthesized Null node.
    The Null built for an omitted mapping value gets the parent the Property
    itself was given: it is recorded as a sibling of the Property that holds
    it.  In a map with the single mapping [a:] that parent is the Object,
    not the Property; in a top-level sequence that starts with an absent
    item the Null that is the Array's first item has no parent at all,
    although it is not the root. *)
Theorem C7_synthesized_null_parent_is_not_its_holder :
  (forall (H : Collaborators) p s e key σ,
     let res := recursivelyBuildAst p (Some (YAMLMapping s e key None)) σ in
     exists property null pn nn keyNode,
       res.1 = Some property /\
       heap res.2 !! property = Some pn /\
       content pn = PropertyContent keyNode (Some null) /\
       heap res.2 !! null = Some nn /\
       content nn = NullContent /\
       parent nn = parent pn /\
       parent nn = p) /\
  (let mapping := YAMLMapping 0 2 (plainScalarAt 0 1 "a") None in
   let res :=
     @recursivelyBuildAst sampleCollaborators None
       (Some (YamlMap 0 3 [mapping])) emptyStore in
   res.1 = Some 0%nat /\
   heap res.2 !! 0%nat
   = Some (mkNode None 0 (Some 3) (ObjectContent [Some 1%nat])) /\
   heap res.2 !! 1%nat
   = Some (mkNode (Some 0%nat) 0 (Some 2)
             (PropertyContent (Some 2%nat) (Some 3%nat))) /\
   heap res.2 !! 3%nat = Some (mkNode (Some 0%nat) 0 None NullContent)) /\
  (let items := [None; Some (YAMLScalarNode (plainScalarAt 4 5 "b"))] in
   let res :=
     @recursivelyBuildAst sampleCollaborators None
       (Some (YAMLSequence 0 10 items)) emptyStore in
   res.1 = Some 0%nat /\
   heap res.2 !! 0%nat
   = Some (mkNode None 0 (Some 10) (ArrayContent [Some 1%nat; Some 2%nat])) /\
   heap res.2 !! 1%nat = Some (mkNode None 0 (Some 10) NullContent) /\
   heap res.2 !! 2%nat
   = Some (mkNode (Some 0%nat) 4 (Some 1) (StringContent (Some "b")))).
Proof.
  split; [|split; vm_compute; repeat split].
  intros H p s e key σ res.
  destruct (mapping_without_value p s e key σ) as (Hr & Hp & Hn).
  eexists _, _, _, _, _.
  split; [exact Hr|]. split; [exact Hp|]. split; [reflexivity|].
  split; [exact Hn|]. repeat split.
Qed.

(** C8.  Converting a raw Map node yields an Object, and converting a raw
    Sequence node yields an Array, whose offset is the raw node's start and
    whose length is the raw node's end minus its start, so that the span
    ends at the raw node's end.  This holds for the node a conversion
    returns and for every Map and Sequence node nested in it: its Object or
    Array is in the store the conversion returns, with that span. *)
Theorem C8_object_and_array_span (H : Collaborators) (p : option NodeId)
    (top n : YAMLNode) (σ : Store) :
  convertedIn n top -> isMapOrSequence n ->
  let res := recursivelyBuildAst p (Some top) σ in
  (exists id a,
     heap res.2 !! id = Some a /\ spansRaw n a /\
     offset a + (endPosition n - startPosition n) = endPosition n) /\
  (isMapOrSequence top ->
   exists id a,
     res.1 = Some id /\ heap res.2 !! id = Some a /\ spansRaw top a /\
     offset a + (endPosition top - startPosition top) = endPosition top).
Proof.
  intros Hconv Hkind res. subst res. simpl recursivelyBuildAst. split.
  - destruct (convertedIn_spansRaw n top Hconv Hkind p σ) as (id & a & _ & Ha & HQ).
    exists id, a. split; [exact Ha|]. split; [exact HQ|].
    destruct HQ as (-> & _). lia.
  - intros Htop. destruct top as [s e mappings| |s e items| | | |]; try contradiction.
    + destruct (build_YamlMap_nodeAt p s e mappings σ) as [Hr [_ (c & Hc & HC)]].
      exists (next σ), (mkNode p s (Some (e - s)) c).
      split; [exact Hr|]. split; [exact Hc|]. split; [repeat split; exact HC|].
      simpl. lia.
    + destruct (build_YAMLSequence_nodeAt p s e items σ) as [Hr [_ (c & Hc & HC)]].
      exists (next σ), (mkNode p s (Some (e - s)) c).
      split; [exact Hr|]. split; [exact Hc|]. split; [repeat split; exact HC|].
      simpl. lia.
Qed.

Lemma C8_object_and_array_span_witness :
  let inner := YAMLSequence 5 12 [Some (YAMLScalarNode (plainScalarAt 7 8 "x")); None] in
  let top := YamlMap 0 12 [YAMLMapping 0 12 (plainScalarAt 0 1 "a") (Some inner)] in
  let res := @recursivelyBuildAst sampleCollaborators None (Some top) emptyStore in
  (exists id a,
     heap res.2 !! id = Some a /\ spansRaw inner a /\ offset a + (12 - 5) = 12) /\
  (exists id a,
     res.1 = Some id /\ heap res.2 !! id = Some a /\ spansRaw top a /\
     offset a + (12 - 0) = 12).
Proof.
  intros inner top res.
  assert (Hconv : convertedIn inner top).
  { eapply convertedIn_mappings; [left; reflexivity|].
    apply convertedIn_value, convertedIn_here. }
  pose proof (C8_object_and_array_span sampleCollaborators None top inner emptyStore
                Hconv I) as [Hinner Htop].
  split; [exact Hinner|exact (Htop I)].
Defined.

(** ** The boolean patch of the scalar case *)

Lemma indexOf_from_In (l : list string) (x : string) :
  forall i, 0 <= i -> In x l -> 0 <= indexOf_from i l x.
Proof.
  induction l as [|y l IH]; intros i Hi Hin; simpl in *; [tauto|].
  destruct (String.eqb_spec y x) as [->|Hne]; [exact Hi|].
  destruct Hin as [->|Hin]; [congruence|]. apply IH; [lia|exact Hin].
Qed.

Lemma indexOf_from_not_In (l : list string) (x : string) :
  forall i, ~ In x l -> indexOf_from i l x = -1.
Proof.
  induction l as [|y l IH]; intros i Hin; simpl in *; [reflexivity|].
  destruct (String.eqb_spec y x) as [->|Hne]; [tauto|]. apply IH. tauto.
Qed.

(** [l.indexOf(x) !== -1] holds exactly when [x] is an element of [l]. *)
Lemma indexOf_found (l : list string) (x : string) :
  negb (Z.eqb (indexOf l x) (-1)) = true <-> In x l.
Proof.
  unfold indexOf. rewrite negb_true_iff, Z.eqb_neq. split.
  - intros Hne. destruct (in_dec string_dec x l) as [Hin|Hin]; [exact Hin|].
    rewrite indexOf_from_not_In in Hne by exact Hin. congruence.
  - intros Hin. pose proof (indexOf_from_In l x 0 (Z.le_refl 0) Hin). lia.
Qed.

(** C5.  A scalar whose text is one of the sixteen tokens is built as a
    Boolean node, parsed by [parseYamlBoolean], when it is plain, whatever
    the scalar classifier reports.  When it is not plain the patch does not
    apply: the node is the one the default dispatch on the classifier's
    answer builds, a String holding the text when the classifier says
    string. *)
Theorem C5_plain_boolean_tokens (H : Collaborators) (parent : option NodeId)
    (instance : YAMLScalar) (σ : Store) :
  In (scalar_value instance)
     ["y"; "Y"; "yes"; "Yes"; "YES"; "n"; "N"; "no"; "No"; "NO";
      "on"; "On"; "ON"; "off"; "Off"; "OFF"] ->
  let res := recursivelyBuildAst parent (Some (YAMLScalarNode instance)) σ in
  let span :=
    Some (scalar_endPosition instance - scalar_startPosition instance) in
  (plainScalar instance = true ->
   res.1 = Some (next σ) /\
   heap res.2 !! next σ
   = Some (mkNode parent (scalar_startPosition instance) span
             (BooleanContent (parseYamlBoolean (scalar_value instance))))) /\
  (plainScalar instance = false ->
   res = buildScalarOfType (determineScalarType instance) parent instance σ /\
   (determineScalarType instance = ScalarType_string ->
    res.1 = Some (next σ) /\
    heap res.2 !! next σ
    = Some (mkNode parent (scalar_startPosition instance) span
              (StringContent (Some (scalar_value instance)))))).
Proof.
  intros Htoken res span. subst res span.
  change (In (scalar_value instance) possibleBooleanValues) in Htoken.
  apply indexOf_found in Htoken.
  simpl recursivelyBuildAst. cbn [recursivelyBuildAst_node]. unfold buildScalar.
  split; intros Hplain; rewrite Hplain.
  - rewrite Htoken. simpl. split; [reflexivity|apply lookup_insert_eq].
  - simpl. split; [reflexivity|]. intros ->. simpl.
    split; [reflexivity|]. rewrite lookup_alter_eq, lookup_insert_eq. reflexivity.
Qed.

Lemma C5_plain_boolean_tokens_witness :
  (let res :=
     @recursivelyBuildAst sampleCollaborators None
       (Some (YAMLScalarNode (plainScalarAt 0 3 "yes"))) emptyStore in
   res.1 = Some 0%nat /\
   heap res.2 !! 0%nat = Some (mkNode None 0 (Some 3) (BooleanContent true))) /\
  (let res :=
     @recursivelyBuildAst sampleCollaborators None
       (Some (YAMLScalarNode (mkScalar 0 5 "yes" false))) emptyStore in
   res.1 = Some 0%nat /\
   heap res.2 !! 0%nat
   = Some (mkNode None 0 (Some 5) (StringContent (Some "yes")))).
Proof.
  split.
  - apply (proj1 (C5_plain_boolean_tokens sampleCollaborators None
                    (plainScalarAt 0 3 "yes") emptyStore
                    ltac:(simpl; tauto)) eq_refl).
  - apply (proj2 (proj2 (C5_plain_boolean_tokens sampleCollaborators None
                           (mkScalar 0 5 "yes" false) emptyStore
                           ltac:(simpl; tauto)) eq_refl) eq_refl).
Defined.

(** ** Documents and their diagnostics *)


Section DocumentFacts.
Context `{Collaborators}.

Lemma fold_left_push_error ds d :
  fold_left push_error ds d
  = {| lines := lines d; root := root d; nodes := nodes d;
       errors := errors d ++ ds; warnings := warnings d |}.
Proof.
  revert d. induction ds as [|x ds IH]; intros d; simpl.
  - rewrite app_nil_r. destruct d; reflexivity.
  - rewrite IH. simpl. rewrite <- app_assoc. reflexivity.
Qed.

Lemma fold_left_push_warning ds d :
  fold_left push_warning ds d
  = {| lines := lines d; root := root d; nodes := nodes d;
       errors := errors d; warnings := warnings d ++ ds |}.
Proof.
  revert d. induction ds as [|x ds IH]; intros d; simpl.
  - rewrite app_nil_r. destruct d; reflexivity.
  - rewrite IH. simpl. rewrite <- app_assoc. reflexivity.
Qed.

(** [createJSONDocument], field by field. *)
Lemma createJSONDocument_unfold yamlDoc startPositions text :
  let res := recursivelyBuildAst None (Some (doc_node yamlDoc)) emptyStore in
  createJSONDocument yamlDoc startPositions text
  = {| lines := startPositions; root := res.1; nodes := res.2;
       errors := structuralErrors yamlDoc res.1 ++ filterErrors (doc_errors yamlDoc);
       warnings := filterWarnings text (doc_errors yamlDoc) |}.
Proof.
  unfold createJSONDocument. simpl nodes.
  destruct (recursivelyBuildAst None (Some (doc_node yamlDoc)) emptyStore) as [r σ].
  rewrite fold_left_push_warning, fold_left_push_error.
  destruct r; reflexivity.
Qed.

Lemma documentOf_unfold node startPositions text es :
  let res := recursivelyBuildAst None (Some node) emptyStore in
  documentOf node startPositions text es
  = {| lines := startPositions; root := res.1; nodes := res.2;
       errors := structuralErrors (mkRawDocument node []) res.1 ++ filterErrors es;
       warnings := filterWarnings text es |}.
Proof. unfold documentOf. rewrite createJSONDocument_unfold. reflexivity. Qed.

Lemma filterErrors_app es1 es2 :
  filterErrors (es1 ++ es2) = filterErrors es1 ++ filterErrors es2.
Proof. unfold filterErrors. rewrite List.filter_app, List.map_app. reflexivity. Qed.

Lemma filterWarnings_app text es1 es2 :
  filterWarnings text (es1 ++ es2) = filterWarnings text es1 ++ filterWarnings text es2.
Proof. unfold filterWarnings. rewrite List.filter_app, List.map_app. reflexivity. Qed.

Lemma filterErrors_cons e es :
  filterErrors (e :: es)
  = (if isError e then [convertError e] else []) ++ filterErrors es.
Proof. unfold filterErrors. simpl. destruct (isError e); reflexivity. Qed.

Lemma filterWarnings_cons text e es :
  filterWarnings text (e :: es)
  = (if isWarningEntry text e then [convertError e] else []) ++ filterWarnings text es.
Proof. unfold filterWarnings. simpl. destruct (isWarningEntry text e); reflexivity. Qed.

Lemma isDuplicateAndNotMergeKey_negb e text :
  isDuplicateAndNotMergeKey e text = negb (isMergeKeyDuplicate text e).
Proof.
  unfold isDuplicateAndNotMergeKey, isMergeKeyDuplicate, sourceTextAt, duplicateKeyReason.
  destruct (_ && _); reflexivity.
Qed.

(** The three outcomes, from the two filter predicates of the source. *)
Lemma becomesError_intro node startPositions text pre e post :
  isError e = true -> isWarningEntry text e = false ->
  becomesError node startPositions text pre e post.
Proof.
  intros He Hw. unfold becomesError. rewrite !documentOf_unfold. simpl.
  rewrite filterErrors_app, filterErrors_cons, He.
  rewrite !filterWarnings_app, filterWarnings_cons, Hw.
  rewrite <- app_assoc. auto.
Qed.

Lemma becomesWarning_intro node startPositions text pre e post :
  isError e = false -> isWarningEntry text e = true ->
  becomesWarning node startPositions text pre e post.
Proof.
  intros He Hw. unfold becomesWarning. rewrite !documentOf_unfold. simpl.
  rewrite !filterErrors_app, filterErrors_cons, He.
  rewrite filterWarnings_app, filterWarnings_cons, Hw. auto.
Qed.

Lemma isDropped_intro node startPositions text pre e post :
  isError e = false -> isWarningEntry text e = false ->
  isDropped node startPositions text pre e post.
Proof.
  intros He Hw. unfold isDropped. rewrite !documentOf_unfold. simpl.
  rewrite !filterErrors_app, filterErrors_cons, He.
  rewrite !filterWarnings_app, filterWarnings_cons, Hw. reflexivity.
Qed.

End DocumentFacts.

Section DispositionFacts.
Context `{Collaborators}.

(** No entry passes both filters. *)
Lemma isError_not_isWarningEntry text e :
  isError e = true -> isWarningEntry text e = false.
Proof.
  unfold isError, isWarningEntry. intros He.
  apply andb_true_iff in He as [Hr Hw].
  apply negb_true_iff in Hr. apply negb_true_iff in Hw.
  rewrite Hr, Hw. reflexivity.
Qed.

Lemma becomesError_elim node startPositions text pre e post :
  becomesError node startPositions text pre e post -> isError e = true.
Proof.
  unfold becomesError. rewrite !documentOf_unfold. simpl. intros [He _].
  rewrite filterErrors_app, filterErrors_cons in He.
  destruct (isError e); [reflexivity|].
  apply (f_equal (@List.length _)) in He.
  repeat (rewrite ?length_app in He; simpl in He). lia.
Qed.

Lemma becomesWarning_elim node startPositions text pre e post :
  becomesWarning node startPositions text pre e post ->
  isWarningEntry text e = true.
Proof.
  unfold becomesWarning. rewrite !documentOf_unfold. simpl. intros [Hw _].
  rewrite filterWarnings_app, filterWarnings_cons in Hw.
  destruct (isWarningEntry text e); [reflexivity|].
  apply (f_equal (@List.length _)) in Hw.
  repeat (rewrite ?length_app in Hw; simpl in Hw). lia.
Qed.

Lemma isDropped_elim node startPositions text pre e post :
  isDropped node startPositions text pre e post ->
  isError e = false /\ isWarningEntry text e = false.
Proof.
  unfold isDropped. rewrite !documentOf_unfold. simpl. intros Hd.
  injection Hd as He Hw.
  rewrite !filterErrors_app, filterErrors_cons in He.
  rewrite !filterWarnings_app, filterWarnings_cons in Hw.
  apply (f_equal (@List.length _)) in He, Hw.
  destruct (isError e), (isWarningEntry text e); simpl in He, Hw;
    rewrite !length_app in He; rewrite !length_app in Hw; simpl in He, Hw;
    try (split; reflexivity); lia.
Qed.

Lemma countMessage_app m ds1 ds2 :
  countMessage m (ds1 ++ ds2) = (countMessage m ds1 + countMessage m ds2)%nat.
Proof. unfold countMessage. rewrite List.filter_app, length_app. reflexivity. Qed.

(** No converted error carries the reason "duplicate key". *)
Lemma countMessage_filterErrors es :
  countMessage duplicateKeyReason (filterErrors es) = 0%nat.
Proof.
  induction es as [|e es IH]; [reflexivity|].
  rewrite filterErrors_cons, countMessage_app, IH.
  unfold isError. destruct (String.eqb_spec (reason e) duplicateKeyReason) as [Hr|Hr];
    simpl; [reflexivity|].
  destruct (isWarning e); simpl; [reflexivity|].
  unfold countMessage. simpl.
  destruct (String.eqb_spec (reason e) duplicateKeyReason); [contradiction|reflexivity].
Qed.

Lemma countMessage_filterWarnings text es :
  Forall (fun x => reason x <> duplicateKeyReason) es ->
  countMessage duplicateKeyReason (filterWarnings text es) = 0%nat.
Proof.
  induction 1 as [|e es He _ IH]; [reflexivity|].
  rewrite filterWarnings_cons, countMessage_app, IH.
  destruct (isWarningEntry text e); [|reflexivity].
  unfold countMessage. simpl.
  destruct (String.eqb_spec (reason e) duplicateKeyReason); [contradiction|reflexivity].
Qed.

Lemma countMessage_structuralErrors yamlDoc r :
  countMessage duplicateKeyReason (structuralErrors yamlDoc r) = 0%nat.
Proof. destruct r; reflexivity. Qed.

End DispositionFacts.

(** C4.  When the top-level node resolves to no AST node, the document has
    no root and its error list starts with the structural error, whose
    message is "Expected a YAML object, array or literal" and whose location
    runs from the raw document's start to its end; the converted raw
    diagnostics follow it.  A document without a root has at least one
    error. *)
Theorem C4_absent_root_has_structural_error (H : Collaborators)
    (yamlDoc : RawDocument) (startPositions : list Z) (text : string) :
  let d := createJSONDocument yamlDoc startPositions text in
  ((recursivelyBuildAst None (Some (doc_node yamlDoc)) emptyStore).1 = None ->
   root d = None /\
   exists first,
     errors d = first :: filterErrors (doc_errors yamlDoc) /\
     message first = "Expected a YAML object, array or literal" /\
     loc_start (location first) = startPosition (doc_node yamlDoc) /\
     loc_end (location first) = endPosition (doc_node yamlDoc)) /\
  (root d = None -> errors d <> []).
Proof.
  intros d. subst d. rewrite createJSONDocument_unfold. simpl. split.
  - intros ->. split; [reflexivity|].
    exists (structuralError yamlDoc). repeat split.
  - intros ->. simpl. discriminate.
Qed.

Lemma C4_absent_root_has_structural_error_witness :
  let yamlDoc :=
    mkRawDocument (YAMLUnknownKind 0 7) [mkError "bad indentation" false (mkMark 3 1)] in
  let d := @createJSONDocument sampleCollaborators yamlDoc [0] "? [ x ]" in
  (root d = None /\
   exists first,
     errors d = first :: filterErrors (doc_errors yamlDoc) /\
     message first = "Expected a YAML object, array or literal" /\
     loc_start (location first) = 0 /\
     loc_end (location first) = 7) /\
  errors d <> [].
Proof.
  intros yamlDoc d. split.
  - apply (proj1 (C4_absent_root_has_structural_error sampleCollaborators
                    yamlDoc [0] "? [ x ]") eq_refl).
  - apply (proj2 (C4_absent_root_has_structural_error sampleCollaborators
                    yamlDoc [0] "? [ x ]") eq_refl).
Defined.

Lemma countMessage_filterWarnings_duplicates text es :
  Forall (fun x => isMergeKeyDuplicate text x = false) es ->
  countMessage duplicateKeyReason (filterWarnings text es)
  = countReason duplicateKeyReason es.
Proof.
  induction 1 as [|e es He _ IH]; [reflexivity|].
  rewrite filterWarnings_cons, countMessage_app, IH.
  unfold countReason, isWarningEntry. simpl.
  rewrite isDuplicateAndNotMergeKey_negb, He.
  destruct (String.eqb_spec (reason e) duplicateKeyReason) as [Hr|Hr]; simpl.
  - unfold countMessage. simpl. rewrite Hr. reflexivity.
  - destruct (isWarning e); [|reflexivity].
    unfold countMessage. simpl.
    destruct (String.eqb_spec (reason e) duplicateKeyReason); [contradiction|].
    reflexivity.
Qed.

(** C6, as the specification states it, fails on its own example: for one
    duplicated key the document receives one raw entry for each of the two
    conflicting keys, neither of them a merge key, and has two warnings with
    the message "duplicate key", not one. *)
Lemma C6_one_duplicated_key_gives_two_warnings :
  let text := duplicateKeyText in
  let e1 := mkError "duplicate key" false (mkMark 5 0) in
  let e2 := mkError "duplicate key" false (mkMark 0 0) in
  let d := @documentOf sampleCollaborators (YamlMap 0 9 []) [0; 5] text [e1; e2] in
  isMergeKeyDuplicate text e1 = false /\
  isMergeKeyDuplicate text e2 = false /\
  warnings d = [convertError e1; convertError e2] /\
  countMessage "duplicate key" (warnings d) = 2%nat /\
  countMessage "duplicate key" (warnings d) <> 1%nat.
Proof. repeat split; try reflexivity. vm_compute. discriminate. Qed.

(** C6, amended.  An entry that is not a merge-key duplicate becomes a
    warning when its reason is "duplicate key", becomes a warning when it is
    flagged as a warning, whatever its reason, and becomes an error
    otherwise.  A document none of whose entries is a merge-key duplicate
    has one warning with the message "duplicate key" for each raw entry with
    that reason, and no error with that message. *)
Theorem C6_classification (H : Collaborators) (node : YAMLNode)
    (startPositions : list Z) (text : string)
    (pre : list YamlError) (e : YamlError) (post : list YamlError) :
  isMergeKeyDuplicate text e = false ->
  (reason e = "duplicate key" ->
   becomesWarning node startPositions text pre e post) /\
  (isWarning e = true ->
   becomesWarning node startPositions text pre e post) /\
  (reason e <> "duplicate key" -> isWarning e = false ->
   becomesError node startPositions text pre e post) /\
  (Forall (fun x => isMergeKeyDuplicate text x = false) (pre ++ post) ->
   let d := documentOf node startPositions text (pre ++ e :: post) in
   countMessage "duplicate key" (warnings d)
   = countReason "duplicate key" (pre ++ e :: post) /\
   countMessage "duplicate key" (errors d) = 0%nat).
Proof.
  intros Hmerge.
  assert (Hdup : reason e = "duplicate key" ->
                 isError e = false /\ isWarningEntry text e = true).
  { intros Hr. unfold isError, isWarningEntry.
    rewrite isDuplicateAndNotMergeKey_negb, Hmerge.
    unfold duplicateKeyReason. rewrite Hr. split; reflexivity. }
  split; [|split; [|split]].
  - intros Hr. destruct (Hdup Hr). apply becomesWarning_intro; assumption.
  - intros Hflag. apply becomesWarning_intro.
    + unfold isError. rewrite Hflag. apply andb_false_r.
    + unfold isWarningEntry. rewrite Hflag. apply orb_true_r.
  - intros Hr Hflag. apply String.eqb_neq in Hr. apply becomesError_intro.
    + unfold isError, duplicateKeyReason. rewrite Hflag, Hr. reflexivity.
    + unfold isWarningEntry, duplicateKeyReason. rewrite Hflag, Hr. reflexivity.
  - intros Hothers d. subst d. rewrite documentOf_unfold. simpl.
    assert (Hall : Forall (fun x => isMergeKeyDuplicate text x = false)
                     (pre ++ e :: post)).
    { apply Forall_app in Hothers as [Hpre Hpost].
      apply Forall_app. split; [exact Hpre|]. constructor; assumption. }
    change "duplicate key" with duplicateKeyReason.
    split.
    + apply countMessage_filterWarnings_duplicates, Hall.
    + rewrite countMessage_app, countMessage_structuralErrors,
        countMessage_filterErrors.
      reflexivity.
Qed.

Lemma C6_classification_witness :
  let text := duplicateKeyText in
  let node := YamlMap 0 9 [] in
  let e1 := mkError "duplicate key" false (mkMark 5 0) in
  let e2 := mkError "duplicate key" false (mkMark 0 0) in
  let d := @documentOf sampleCollaborators node [0; 5] text [e1; e2] in
  @becomesWarning sampleCollaborators node [0; 5] text [] e1 [e2] /\
  countMessage "duplicate key" (warnings d) = 2%nat /\
  countMessage "duplicate key" (errors d) = 0%nat.
Proof.
  intros text node e1 e2 d.
  pose proof (C6_classification sampleCollaborators node [0; 5] text [] e1 [e2] eq_refl)
    as (Hdup & _ & _ & Hcount).
  split; [exact (Hdup eq_refl)|].
  apply Hcount. repeat constructor.
Defined.

(** C10.  Every raw diagnostic entry has exactly one of the three outcomes:
    it is converted into the error list only, into the warning list only, or
    into neither. *)
Theorem C10_exactly_one_outcome (H : Collaborators) (node : YAMLNode)
    (startPositions : list Z) (text : string)
    (pre : list YamlError) (e : YamlError) (post : list YamlError) :
  let E := becomesError node startPositions text pre e post in
  let W := becomesWarning node startPositions text pre e post in
  let D := isDropped node startPositions text pre e post in
  (E \/ W \/ D) /\ ~ (E /\ W) /\ ~ (E /\ D) /\ ~ (W /\ D).
Proof.
  intros E W D. subst E W D. split; [|split; [|split]].
  - destruct (isError e) eqn:He; destruct (isWarningEntry text e) eqn:Hw.
    + rewrite (isError_not_isWarningEntry text e He) in Hw. discriminate.
    + left. apply becomesError_intro; assumption.
    + right. left. apply becomesWarning_intro; assumption.
    + right. right. apply isDropped_intro; assumption.
  - intros [HE HW]. apply becomesError_elim in HE. apply becomesWarning_elim in HW.
    rewrite (isError_not_isWarningEntry text e HE) in HW. discriminate.
  - intros [HE HD]. apply becomesError_elim in HE. apply isDropped_elim in HD as [HD _].
    congruence.
  - intros [HW HD]. apply becomesWarning_elim in HW. apply isDropped_elim in HD as [_ HD].
    congruence.
Qed.

(** ** Custom tags *)

Lemma registerCustomTags_app tags1 tags2 schema :
  registerCustomTags (tags1 ++ tags2) schema
  = registerCustomTags tags2 (registerCustomTags tags1 schema).
Proof. unfold registerCustomTags. apply fold_left_app. Qed.

(** Assigning the entry of one tag twice in a row is assigning it once. *)
Lemma registerCustomTags_twice tag schema :
  registerCustomTags [tag; tag] schema = registerCustomTags [tag] schema.
Proof.
  unfold registerCustomTags. simpl. f_equal. apply insert_insert_eq.
Qed.

Lemma registerCustomTags_repeated before tag after schema :
  registerCustomTags (before ++ tag :: tag :: after) schema
  = registerCustomTags (before ++ tag :: after) schema.
Proof.
  rewrite !registerCustomTags_app.
  change (tag :: tag :: after) with ([tag; tag] ++ after).
  change (tag :: after) with ([tag] ++ after).
  rewrite !registerCustomTags_app, registerCustomTags_twice. reflexivity.
Qed.

(** After the registration the entry of the last tag is the type built from
    it, whatever the schema held before. *)
Lemma registerCustomTags_last before tag schema :
  compiledTypeMap (registerCustomTags (before ++ [tag]) schema)
    !! nth 0 (js_split " "%char tag) ""
  = Some (typeOfTag tag).
Proof.
  rewrite registerCustomTags_app. unfold registerCustomTags at 1. simpl.
  apply lookup_insert_eq.
Qed.

(** C9.  Listing a custom tag twice in a row instead of once, anywhere in
    [customTags], leaves the registry that the explicit registration of
    [parse] produces unchanged, from whatever registry it starts; whatever
    schema the constructor returned, the entry of the tag is the same type;
    and with a constructor that leaves the registry at the built-in one,
    the schema handed to the parsing collaborator, and with it the result of
    [parse], is the same. *)
Theorem C9_registering_a_tag_twice (tag : string) (before after : list string) :
  (forall schema,
     registerCustomTags (before ++ tag :: tag :: after) schema
     = registerCustomTags (before ++ tag :: after) schema) /\
  (forall (P : ParserCollaborators),
     compiledTypeMap (schemaWithAdditionalTags (before ++ [tag; tag]))
       !! type_tag (typeOfTag tag)
     = Some (typeOfTag tag) /\
     compiledTypeMap (schemaWithAdditionalTags (before ++ [tag]))
       !! type_tag (typeOfTag tag)
     = Some (typeOfTag tag)) /\
  (forall (H : Collaborators) builtin load lineStarts text,
     let P := specParserCollaborators builtin load lineStarts in
     @schemaWithAdditionalTags P (before ++ tag :: tag :: after)
     = @schemaWithAdditionalTags P (before ++ tag :: after) /\
     @parse H P text (before ++ tag :: tag :: after)
     = @parse H P text (before ++ tag :: after)).
Proof.
  split; [|split].
  - intros schema. apply registerCustomTags_repeated.
  - intros P. unfold schemaWithAdditionalTags. split.
    + change [tag; tag] with ([tag] ++ [tag]). rewrite app_assoc.
      apply registerCustomTags_last.
    + apply registerCustomTags_last.
  - intros H builtin load lineStarts text P.
    assert (Hs : @schemaWithAdditionalTags P (before ++ tag :: tag :: after)
                 = @schemaWithAdditionalTags P (before ++ tag :: after)).
    { unfold schemaWithAdditionalTags. simpl. unfold Schema_create_spec.
      apply registerCustomTags_repeated. }
    split; [exact Hs|]. unfold parse. rewrite Hs. reflexivity.
Qed.

(** * Further properties of the builder *)

(** ** What a conversion returns *)

Ltac store_lookup :=
  repeat first
    [ rewrite lookup_alter_eq
    | rewrite lookup_insert_eq
    | rewrite lookup_alter_ne by lia
    | rewrite lookup_insert_ne by lia ].

Section Returned.
Context `{Collaborators}.

Lemma buildScalarOfType_node type p instance σ :
  let res := buildScalarOfType type p instance σ in
  res.1 = Some (next σ) /\ next res.2 = S (next σ) /\
  heap res.2 !! next σ
  = Some (mkNode p (scalar_startPosition instance)
            (Some (scalar_endPosition instance - scalar_startPosition instance))
            (scalarContent type (scalar_value instance))).
Proof.
  destruct type; simpl; repeat split; store_lookup; reflexivity.
Qed.

(** The node a conversion returns is the first one it allocates; it has the
    parent the call was given and the span [builtSpan] computes.  A node of
    an unknown kind is the only one that converts to nothing, and then the
    store is left as it was. *)
Lemma recursivelyBuildAst_node_returns n :
  forall p σ,
    let res := recursivelyBuildAst_node p n σ in
    if unknownKind n then res = (None, σ)
    else
      res.1 = Some (next σ) /\ (next σ < next res.2)%nat /\
      exists c,
        heap res.2 !! next σ
        = Some (mkNode p (builtSpan n).1 (Some (builtSpan n).2) c).
Proof.
  induction n as
    [s e mappings _ | s e key value _ | s e items _ | instance
    | s e value IH | s e value | s e] using YAMLNode_nested_ind;
    intros p σ res; subst res; cbn [unknownKind].
  - destruct (build_YamlMap_nodeAt p s e mappings σ) as [Hr [Hlt (c & Hc & _)]].
    split; [exact Hr|]. split; [exact Hlt|]. exists c. exact Hc.
  - simpl. destruct value as [v|].
    + frame_recursive_call v r σ4 Hv. unfold preserves, update in Hv.
      simpl in *. destruct Hv as [Hn Hh].
      split; [reflexivity|]. split; [lia|].
      eexists. store_lookup. rewrite Hh by lia.
      store_lookup. simpl. reflexivity.
    + simpl. split; [reflexivity|]. split; [lia|].
      eexists. store_lookup. simpl. reflexivity.
  - destruct (build_YAMLSequence_nodeAt p s e items σ) as [Hr [Hlt (c & Hc & _)]].
    split; [exact Hr|]. split; [exact Hlt|]. exists c. exact Hc.
  - simpl. unfold buildScalar. destruct (plainScalar instance && _).
    + simpl. split; [reflexivity|]. split; [lia|]. eexists. store_lookup. reflexivity.
    + destruct (buildScalarOfType_node (determineScalarType instance) p instance σ)
        as (Hr & Hn & Hc).
      split; [exact Hr|]. split; [lia|]. eexists. exact Hc.
  - simpl. destruct value as [v|].
    + specialize (IH v eq_refl p σ). simpl in IH.
      destruct (unknownKind v).
      * rewrite IH. simpl. split; [reflexivity|]. split; [lia|].
        eexists. store_lookup. reflexivity.
      * destruct (recursivelyBuildAst_node p v σ) as [r σ1]. simpl in IH.
        destruct IH as (-> & Hlt & c & Hc). simpl.
        split; [reflexivity|]. split; [exact Hlt|]. exists c. exact Hc.
    + simpl. split; [reflexivity|]. split; [lia|]. eexists. store_lookup. reflexivity.
  - simpl. split; [reflexivity|]. split; [lia|]. eexists. store_lookup. reflexivity.
  - reflexivity.
Qed.

End Returned.

(** ** Children of maps, mappings and sequences *)

Section Children.
Context `{Collaborators}.

Lemma builtFrom_preservesExcept σ σ' r m x :
  preservesExcept r σ σ' ->
  (forall id, x = Some id -> (id < next σ)%nat) ->
  builtFrom σ r m x -> builtFrom σ' r m x.
Proof.
  intros [_ Hh] Hlt. destruct x as [id|]; simpl; [|auto].
  intros (Hk & Hr & c & Hc). split; [exact Hk|]. split; [exact Hr|].
  exists c. rewrite Hh by (try apply Hlt; auto; lia). exact Hc.
Qed.

(** One recursive call with the parent [r], followed by an assignment to
    [r]: the entry it returns is built from [m]. *)
Lemma child_builtFrom r m f σ :
  (r < next σ)%nat ->
  let res := recursivelyBuildAst_node (Some r) m σ in
  builtFrom (update r f res.2) r m res.1 /\
  (forall id, res.1 = Some id -> (id < next res.2)%nat) /\
  preservesExcept r σ (update r f res.2).
Proof.
  intros Hr res. subst res.
  pose proof (recursivelyBuildAst_node_returns m (Some r) σ) as Hret.
  pose proof (recursivelyBuildAst_node_preserves m (Some r) σ) as Hframe.
  simpl in Hret. split; [|split].
  - destruct (unknownKind m) eqn:Hk.
    + rewrite Hret. simpl. exact Hk.
    + destruct Hret as (Hid & Hlt & c & Hc). rewrite Hid. simpl.
      split; [exact Hk|]. split; [exact Hr|]. exists c.
      rewrite lookup_alter_ne by lia. exact Hc.
  - destruct (unknownKind m).
    + rewrite Hret. simpl. discriminate.
    + destruct Hret as (Hid & Hlt & _). rewrite Hid. intros id [= <-]. exact Hlt.
  - apply preserves_update_except, Hframe.
Qed.

Lemma forOf_cons {A S : Type} (body : A -> S -> LoopStep S) x l s :
  forOf body (x :: l) s
  = match body x s with
    | Continue s' => forOf body l s'
    | Break s' => s'
    end.
Proof. reflexivity. Qed.

(** One iteration of each loop. *)
Lemma forOf_mappingsBody_cons r m mappings σ :
  let res := recursivelyBuildAst_node (Some r) m σ in
  forOf (mappingsBody recursivelyBuildAst_node r) (m :: mappings) σ
  = forOf (mappingsBody recursivelyBuildAst_node r) mappings
      (update r (push_properties res.1) res.2).
Proof.
  intros res. subst res. rewrite forOf_cons. unfold mappingsBody at 1.
  destruct (recursivelyBuildAst_node (Some r) m σ). reflexivity.
Qed.

Lemma forOf_itemsBody_present p r s e len count it rest σ :
  let res := recursivelyBuildAst_node (Some r) it σ in
  forOf (itemsBody recursivelyBuildAst_node p r s e len count) (Some it :: rest) σ
  = forOf (itemsBody recursivelyBuildAst_node p r s e len count) rest
      (update r (push_items res.1) res.2).
Proof.
  intros res. subst res. rewrite forOf_cons. unfold itemsBody at 1.
  destruct (recursivelyBuildAst_node (Some r) it σ). reflexivity.
Qed.

Lemma forOf_itemsBody_absent p r s e len count rest σ :
  Z.eqb count (Z.of_nat len - 1) = false ->
  forOf (itemsBody recursivelyBuildAst_node p r s e len count) (None :: rest) σ
  = forOf (itemsBody recursivelyBuildAst_node p r s e len count) rest
      (update r (push_items (Some (next σ)))
         (alloc (mkNode p s (Some (e - s)) NullContent) σ).2).
Proof.
  intros Hc. rewrite forOf_cons. unfold itemsBody at 1. rewrite Hc. reflexivity.
Qed.

Lemma mappings_loop r mappings :
  forall σ p o l ps,
    (r < next σ)%nat ->
    heap σ !! r = Some (mkNode p o l (ObjectContent ps)) ->
    let σf := forOf (mappingsBody recursivelyBuildAst_node r) mappings σ in
    exists rs,
      heap σf !! r = Some (mkNode p o l (ObjectContent (ps ++ rs))) /\
      Forall2 (builtFrom σf r) mappings rs.
Proof.
  induction mappings as [|m mappings IH]; intros σ p o l ps Hr Hres σf; subst σf.
  - exists []. rewrite app_nil_r. split; [exact Hres|constructor].
  - rewrite forOf_mappingsBody_cons.
    destruct (child_builtFrom r m (push_properties
                (recursivelyBuildAst_node (Some r) m σ).1) σ Hr)
      as (Hbuilt & Hlt & Hexc).
    pose proof (recursivelyBuildAst_node_preserves m (Some r) σ) as [Hn Hh].
    destruct (recursivelyBuildAst_node (Some r) m σ) as [x σ'']. simpl in *.
    destruct (IH (update r (push_properties x) σ'') p o l (ps ++ [x]))
      as (rs & Hrs & Hall).
    + simpl. lia.
    + rewrite update_lookup, Hh, Hres by exact Hr. reflexivity.
    + exists (x :: rs). rewrite <- app_assoc in Hrs. split; [exact Hrs|].
      constructor; [|exact Hall].
      apply (builtFrom_preservesExcept (update r (push_properties x) σ'') _ r m x);
        [|exact Hlt|exact Hbuilt].
      apply forOf_preservesExcept. intros y σ'. apply mappingsBody_preservesExcept.
Qed.

Lemma itemBuiltFrom_preservesExcept σ σ' p r s e item x :
  preservesExcept r σ σ' ->
  (forall id, x = Some id -> (id < next σ)%nat) ->
  itemBuiltFrom σ p r s e item x -> itemBuiltFrom σ' p r s e item x.
Proof.
  intros Hexc Hlt. destruct item as [it|]; simpl.
  - apply builtFrom_preservesExcept; assumption.
  - intros (id & -> & Hr & Hc). exists id. split; [reflexivity|]. split; [exact Hr|].
    destruct Hexc as [_ Hh]. rewrite Hh by (try apply Hlt; auto; lia). exact Hc.
Qed.

Lemma items_loop p r s e len rest :
  (Z.eqb 0 (Z.of_nat len - 1) = true -> Forall (fun x => x <> None) rest) ->
  forall σ pp o l xs,
    (r < next σ)%nat ->
    heap σ !! r = Some (mkNode pp o l (ArrayContent xs)) ->
    let σf := forOf (itemsBody recursivelyBuildAst_node p r s e len 0) rest σ in
    exists ys,
      heap σf !! r = Some (mkNode pp o l (ArrayContent (xs ++ ys))) /\
      Forall2 (itemBuiltFrom σf p r s e) rest ys.
Proof.
  induction rest as [|item rest IH]; intros Hbreak σ pp o l xs Hr Hres σf; subst σf.
  - exists []. rewrite app_nil_r. split; [exact Hres|constructor].
  - assert (Hbreak' : Z.eqb 0 (Z.of_nat len - 1) = true ->
                      Forall (fun x => x <> None) rest).
    { intros Hc. specialize (Hbreak Hc). inversion Hbreak. assumption. }
    specialize (IH Hbreak').
    assert (Hloop : forall σ',
              preservesExcept r σ'
                (forOf (itemsBody recursivelyBuildAst_node p r s e len 0) rest σ')).
    { apply forOf_preservesExcept. intros y σ'. apply itemsBody_preservesExcept. }
    destruct item as [it|].
    + rewrite forOf_itemsBody_present.
      destruct (child_builtFrom r it (push_items
                  (recursivelyBuildAst_node (Some r) it σ).1) σ Hr)
        as (Hbuilt & Hlt & Hexc).
      pose proof (recursivelyBuildAst_node_preserves it (Some r) σ) as [Hn Hh].
      destruct (recursivelyBuildAst_node (Some r) it σ) as [x σ'']. simpl in *.
      destruct (IH (update r (push_items x) σ'') pp o l (xs ++ [x]))
        as (ys & Hys & Hall).
      * simpl. lia.
      * rewrite update_lookup, Hh, Hres by exact Hr. reflexivity.
      * exists (x :: ys). rewrite <- app_assoc in Hys. split; [exact Hys|].
        constructor; [|exact Hall].
        apply (itemBuiltFrom_preservesExcept (update r (push_items x) σ'') _
                 p r s e (Some it) x (Hloop _) Hlt).
        exact Hbuilt.
    + destruct (Z.eqb 0 (Z.of_nat len - 1)) eqn:Hc.
      { specialize (Hbreak eq_refl). inversion Hbreak. congruence. }
      rewrite forOf_itemsBody_absent by exact Hc.
      destruct (IH (update r (push_items (Some (next σ)))
                      (alloc (mkNode p s (Some (e - s)) NullContent) σ).2)
                  pp o l (xs ++ [Some (next σ)]))
        as (ys & Hys & Hall).
      * simpl. lia.
      * rewrite update_lookup. simpl. rewrite lookup_insert_ne by lia.
        rewrite Hres. reflexivity.
      * exists (Some (next σ) :: ys). rewrite <- app_assoc in Hys.
        split; [exact Hys|]. constructor; [|exact Hall].
        apply (itemBuiltFrom_preservesExcept
                 (update r (push_items (Some (next σ)))
                    (alloc (mkNode p s (Some (e - s)) NullContent) σ).2)
                 _ p r s e None (Some (next σ)) (Hloop _)).
        -- intros id [= <-]. simpl. lia.
        -- simpl. exists (next σ). split; [reflexivity|]. split; [exact Hr|].
           rewrite lookup_alter_ne by lia. apply lookup_insert_eq.
Qed.

End Children.

(** X1.  A conversion never changes a node that exists before it starts and
    never reuses an identity: the store it returns agrees with the one it
    was given on every identity allocated before. *)
Theorem X1_conversion_keeps_existing_nodes (H : Collaborators)
    (p : option NodeId) (node : option YAMLNode) (σ : Store) :
  let res := recursivelyBuildAst p node σ in
  (next σ <= next res.2)%nat /\
  forall i, (i < next σ)%nat -> heap res.2 !! i = heap σ !! i.
Proof.
  destruct node as [n|]; simpl.
  - apply recursivelyBuildAst_node_preserves.
  - split; auto.
Qed.

(** X2.  The node a conversion returns, for a raw node of one of the six
    kinds, is the first node the conversion allocates; it has the parent the
    call was given, and its offset and length are those of [builtSpan]. *)
Theorem X2_returned_node (H : Collaborators) (p : option NodeId)
    (n : YAMLNode) (σ : Store) :
  unknownKind n = false ->
  let res := recursivelyBuildAst p (Some n) σ in
  res.1 = Some (next σ) /\ (next σ < next res.2)%nat /\
  exists c,
    heap res.2 !! next σ
    = Some (mkNode p (builtSpan n).1 (Some (builtSpan n).2) c).
Proof.
  intros Hk res. subst res. simpl.
  pose proof (recursivelyBuildAst_node_returns n p σ) as Hret.
  simpl in Hret. rewrite Hk in Hret. exact Hret.
Qed.

Lemma X2_returned_node_witness :
  let target := YAMLSequence 9 15 [] in
  let n := YAMLAnchorReference 20 22 (Some target) in
  let res := @recursivelyBuildAst sampleCollaborators (Some 4%nat) (Some n) emptyStore in
  res.1 = Some 0%nat /\ (0 < next res.2)%nat /\
  exists c, heap res.2 !! 0%nat = Some (mkNode (Some 4%nat) 9 (Some 6) c).
Proof.
  intros target n res.
  exact (X2_returned_node sampleCollaborators (Some 4%nat) n emptyStore eq_refl).
Defined.

(** X3.  A conversion returns nothing exactly when the raw node is absent
    or of a kind the dispatch does not handle, and then it leaves the store
    as it was. *)
Theorem X3_nothing_returned (H : Collaborators) (p : option NodeId)
    (node : option YAMLNode) (σ : Store) :
  let res := recursivelyBuildAst p node σ in
  (res.1 = None <->
   node = None \/ exists n, node = Some n /\ unknownKind n = true) /\
  (res.1 = None -> res.2 = σ).
Proof.
  destruct node as [n|]; simpl.
  - pose proof (recursivelyBuildAst_node_returns n p σ) as Hret. simpl in Hret.
    destruct (unknownKind n) eqn:Hk.
    + rewrite Hret. simpl. split; [|reflexivity].
      split; [|reflexivity]. intros _. right. exists n. auto.
    + destruct Hret as (Hid & _). rewrite Hid. split; [|discriminate].
      split; [discriminate|].
      intros [Hn|(m & [= <-] & Hm)]; congruence.
  - split; [|reflexivity]. split; auto.
Qed.

(** X4.  What the conversion of an anchor reference returns, on a raw tree
    that is finite (no alias inside the anchor it refers to).  When the
    target is of one of the six kinds, the reference converts exactly as the
    target does: the node has the target's span, not the reference's.  When
    the target is absent or converts to nothing, the result is one new Null
    node with the reference's own span.  In both cases a node is
    returned. *)
Theorem X4_anchor_reference (H : Collaborators) (p : option NodeId)
    (s e : Z) (value : option YAMLNode) (σ : Store) :
  let res := recursivelyBuildAst p (Some (YAMLAnchorReference s e value)) σ in
  res.1 = Some (next σ) /\
  match value with
  | Some target =>
      if unknownKind target
      then res.2 = (new_NullASTNodeImpl p s (Some (e - s)) σ).2
      else res = recursivelyBuildAst p (Some target) σ
  | None => res.2 = (new_NullASTNodeImpl p s (Some (e - s)) σ).2
  end.
Proof.
  simpl. destruct value as [target|]; [|split; reflexivity].
  pose proof (recursivelyBuildAst_node_returns target p σ) as Hret. simpl in Hret.
  destruct (unknownKind target).
  - rewrite Hret. split; reflexivity.
  - destruct (recursivelyBuildAst_node p target σ) as [r σ1]. simpl in Hret.
    destruct Hret as (-> & _). split; reflexivity.
Qed.

(** X5.  The Object built for a map has one property entry per mapping, in
    the order of the mappings; each entry is a node whose parent is the
    Object and whose span is the one the conversion of its mapping gives
    (absent only for a mapping of an unknown kind). *)
Theorem X5_map_properties (H : Collaborators) (p : option NodeId) (s e : Z)
    (mappings : list YAMLNode) (σ : Store) :
  let res := recursivelyBuildAst p (Some (YamlMap s e mappings)) σ in
  exists ps,
    res.1 = Some (next σ) /\
    heap res.2 !! next σ = Some (mkNode p s (Some (e - s)) (ObjectContent ps)) /\
    List.length ps = List.length mappings /\
    Forall2 (builtFrom res.2 (next σ)) mappings ps.
Proof.
  simpl.
  destruct (mappings_loop (next σ) mappings
              (alloc (mkNode p s (Some (e - s)) (ObjectContent [])) σ).2
              p s (Some (e - s)) [])
    as (ps & Hps & Hall).
  - simpl. lia.
  - simpl. apply lookup_insert_eq.
  - exists ps. split; [reflexivity|]. split; [exact Hps|].
    split; [|exact Hall]. symmetry. eapply Forall2_length, Hall.
Qed.

(** X6.  For a mapping whose key is a scalar with a text: the Property
    built for it starts at the key's start and ends at the mapping's end,
    and its key node is a String node that holds the key's text, spans the
    key and has the Property as parent.
    When the value is present, the value node is built from it with the
    Property as parent; when it is absent, the value node is the node
    allocated right after the key node. *)
Theorem X6_mapping_property (H : Collaborators) (p : option NodeId) (s e : Z)
    (key : YAMLScalar) (value : option YAMLNode) (σ : Store) :
  let res := recursivelyBuildAst p (Some (YAMLMapping s e key value)) σ in
  let property := next σ in
  let keyNode := S (next σ) in
  exists valueNode,
    res.1 = Some property /\
    heap res.2 !! property
    = Some (mkNode p (scalar_startPosition key)
              (Some (e - scalar_startPosition key))
              (PropertyContent (Some keyNode) valueNode)) /\
    heap res.2 !! keyNode
    = Some (mkNode (Some property) (scalar_startPosition key)
              (Some (scalar_endPosition key - scalar_startPosition key))
              (StringContent (Some (scalar_value key)))) /\
    match value with
    | Some v => builtFrom res.2 property v valueNode
    | None => valueNode = Some (S keyNode)
    end.
Proof.
  simpl. destruct value as [v|].
  - match goal with
    | |- context [recursivelyBuildAst_node (Some ?r) v ?σ3] =>
        destruct (child_builtFrom r v
                    (set_keyNode (Some (S (next σ)))) σ3) as (Hbuilt & Hlt & _);
          [simpl; lia|];
        pose proof (recursivelyBuildAst_node_preserves v (Some r) σ3) as Hv;
        destruct (recursivelyBuildAst_node (Some r) v σ3) as [x σ4]
    end.
    unfold preserves, update in Hv. simpl in *. destruct Hv as [Hn Hh].
    exists x. split; [reflexivity|]. split; [|split].
    + store_lookup. rewrite Hh by lia. store_lookup. reflexivity.
    + store_lookup. rewrite Hh by lia. store_lookup. reflexivity.
    + apply (builtFrom_preservesExcept
               (update (next σ) (set_keyNode (Some (S (next σ)))) σ4) _
               (next σ) v x); [|exact Hlt|exact Hbuilt].
      split; [simpl; lia|]. intros i Hi Hne. simpl.
      rewrite lookup_alter_ne by congruence. reflexivity.
  - simpl. eexists. split; [reflexivity|]. split; [|split].
    + store_lookup. reflexivity.
    + store_lookup. reflexivity.
    + reflexivity.
Qed.

(** X7.  The Array built for a sequence has no item when the sequence
    consists of one absent item.  In every other case it has one item entry
    per item of the sequence, in order: a present item gives a node built
    from it with the Array as parent, an absent item gives a Null node that
    spans the whole sequence and has the parent of the Array. *)
Theorem X7_sequence_items (H : Collaborators) (p : option NodeId) (s e : Z)
    (items : list (option YAMLNode)) (σ : Store) :
  let res := recursivelyBuildAst p (Some (YAMLSequence s e items)) σ in
  exists xs,
    res.1 = Some (next σ) /\
    heap res.2 !! next σ = Some (mkNode p s (Some (e - s)) (ArrayContent xs)) /\
    if onlyAbsent items then xs = []
    else List.length xs = List.length items /\
         Forall2 (itemBuiltFrom res.2 p (next σ) s e) items xs.
Proof.
  simpl. destruct (onlyAbsent items) eqn:Hone.
  - destruct items as [|[it|] [|y items]]; try discriminate Hone.
    exists []. simpl. split; [reflexivity|]. split; [|reflexivity].
    apply lookup_insert_eq.
  - destruct (items_loop p (next σ) s e (List.length items) items)
      with (σ := (alloc (mkNode p s (Some (e - s)) (ArrayContent [])) σ).2)
           (pp := p) (o := s) (l := Some (e - s)) (xs := @nil (option NodeId))
      as (xs & Hxs & Hall).
    + intros Hc. apply Z.eqb_eq in Hc.
      destruct items as [|[it|] [|y items]]; simpl in Hc; try lia;
        try discriminate Hone.
      constructor; [discriminate|constructor].
    + simpl. lia.
    + simpl. apply lookup_insert_eq.
    + exists xs. split; [reflexivity|]. split; [exact Hxs|].
      split; [|exact Hall]. symmetry. eapply Forall2_length, Hall.
Qed.

(** X8.  A scalar always becomes one new leaf that has the parent the call
    was given and spans the scalar.  It is a Boolean parsed by
    [parseYamlBoolean] when the scalar is plain and its text is one of the
    sixteen tokens; otherwise its content follows the type the classifier
    reports: Null, Boolean, integral Number, non-integral Number or String
    holding the text. *)
Theorem X8_scalar_leaf (H : Collaborators) (p : option NodeId)
    (instance : YAMLScalar) (σ : Store) :
  let res := recursivelyBuildAst p (Some (YAMLScalarNode instance)) σ in
  let text := scalar_value instance in
  let isToken :=
    existsb (String.eqb text)
      ["y"; "Y"; "yes"; "Yes"; "YES"; "n"; "N"; "no"; "No"; "NO";
       "on"; "On"; "ON"; "off"; "Off"; "OFF"] in
  res.1 = Some (next σ) /\ next res.2 = S (next σ) /\
  heap res.2 !! next σ
  = Some (mkNode p (scalar_startPosition instance)
            (Some (scalar_endPosition instance - scalar_startPosition instance))
            (if plainScalar instance && isToken
             then BooleanContent (parseYamlBoolean text)
             else scalarContent (determineScalarType instance) text)).
Proof.
  intros res text isToken. subst res. simpl. unfold buildScalar.
  assert (Htok : negb (Z.eqb (indexOf possibleBooleanValues text) (-1)) = isToken).
  { apply eq_true_iff_eq. rewrite indexOf_found. subst isToken.
    rewrite existsb_exists. split.
    - intros Hin. exists text. split; [exact Hin|apply String.eqb_refl].
    - intros (y & Hin & Heq). apply String.eqb_eq in Heq. subst y. exact Hin. }
  fold text. rewrite Htok. destruct (plainScalar instance && isToken).
  - simpl. repeat split. apply lookup_insert_eq.
  - apply buildScalarOfType_node.
Qed.

(** ** Documents *)

(** X9.  When the top-level node is of one of the six kinds, the document
    has a root: the first node of its store, without a parent and with the
    span the conversion gives.  No structural error is recorded: the errors
    are exactly the converted raw entries that pass the error filter. *)
Theorem X9_document_with_root (H : Collaborators) (yamlDoc : RawDocument)
    (startPositions : list Z) (text : string) :
  unknownKind (doc_node yamlDoc) = false ->
  let d := createJSONDocument yamlDoc startPositions text in
  root d = Some 0%nat /\
  (exists c,
     heap (nodes d) !! 0%nat
     = Some (mkNode None (builtSpan (doc_node yamlDoc)).1
               (Some (builtSpan (doc_node yamlDoc)).2) c)) /\
  errors d = filterErrors (doc_errors yamlDoc) /\
  warnings d = filterWarnings text (doc_errors yamlDoc) /\
  lines d = startPositions.
Proof.
  intros Hk d. subst d. rewrite createJSONDocument_unfold. simpl.
  pose proof (recursivelyBuildAst_node_returns (doc_node yamlDoc) None emptyStore)
    as Hret.
  simpl in Hret. rewrite Hk in Hret. destruct Hret as (Hid & _ & c & Hc).
  rewrite Hid. simpl. split; [reflexivity|]. split; [exists c; exact Hc|].
  repeat split.
Qed.

Lemma X9_document_with_root_witness :
  let yamlDoc :=
    mkRawDocument (YamlMap 0 9 [YAMLMapping 0 9 (plainScalarAt 0 1 "a") None])
      [mkError "bad indentation" false (mkMark 3 1)] in
  let d := @createJSONDocument sampleCollaborators yamlDoc [0] "a:" in
  root d = Some 0%nat /\
  (exists c, heap (nodes d) !! 0%nat = Some (mkNode None 0 (Some 9) c)) /\
  errors d = filterErrors (doc_errors yamlDoc) /\
  warnings d = filterWarnings "a:" (doc_errors yamlDoc) /\
  lines d = [0].
Proof.
  intros yamlDoc d.
  exact (X9_document_with_root sampleCollaborators yamlDoc [0] "a:" eq_refl).
Defined.

(** X10.  A document never invents a diagnostic.  Every error is the
    structural error or the conversion of a raw entry that is not flagged as
    a warning and whose reason is not "duplicate key"; every warning is the
    conversion of a raw entry that is flagged as a warning or whose reason
    is "duplicate key".  In particular no error carries the message
    "duplicate key". *)
Theorem X10_diagnostics_provenance (H : Collaborators) (yamlDoc : RawDocument)
    (startPositions : list Z) (text : string) :
  let d := createJSONDocument yamlDoc startPositions text in
  (forall x, In x (errors d) ->
     x = structuralError yamlDoc \/
     exists e, In e (doc_errors yamlDoc) /\ x = convertError e /\
               isWarning e = false /\ reason e <> "duplicate key") /\
  (forall w, In w (warnings d) ->
     exists e, In e (doc_errors yamlDoc) /\ w = convertError e /\
               (isWarning e = true \/ reason e = "duplicate key")) /\
  (forall x, In x (errors d) -> message x <> "duplicate key").
Proof.
  intros d. subst d. rewrite createJSONDocument_unfold. simpl.
  assert (Herr : forall x,
            In x (filterErrors (doc_errors yamlDoc)) ->
            exists e, In e (doc_errors yamlDoc) /\ x = convertError e /\
                      isWarning e = false /\ reason e <> "duplicate key").
  { intros x Hx. unfold filterErrors in Hx. apply in_map_iff in Hx as (e & <- & He).
    apply filter_In in He as [He Hf]. exists e. split; [exact He|].
    split; [reflexivity|]. unfold isError in Hf.
    apply andb_true_iff in Hf as [Hr Hw].
    apply negb_true_iff in Hr, Hw. apply String.eqb_neq in Hr. auto. }
  assert (Hstruct : forall x r,
            In x (structuralErrors yamlDoc r) -> x = structuralError yamlDoc).
  { intros x [id|] Hx; simpl in Hx; [contradiction|]. destruct Hx as [<-|[]].
    reflexivity. }
  split; [|split].
  - intros x Hx. apply in_app_or in Hx as [Hx|Hx].
    + left. eapply Hstruct, Hx.
    + right. apply Herr, Hx.
  - intros w Hw. unfold filterWarnings in Hw.
    apply in_map_iff in Hw as (e & <- & He).
    apply filter_In in He as [He Hf]. exists e. split; [exact He|].
    split; [reflexivity|]. unfold isWarningEntry in Hf.
    apply orb_true_iff in Hf as [Hf|Hf]; [right|left; exact Hf].
    apply andb_true_iff in Hf as [Hr _]. apply String.eqb_eq in Hr. exact Hr.
  - intros x Hx. apply in_app_or in Hx as [Hx|Hx].
    + rewrite (Hstruct x _ Hx). discriminate.
    + destruct (Herr x Hx) as (e & _ & -> & _ & Hr). exact Hr.
Qed.

Lemma substring_length_le (s : string) :
  forall n m, (String.length (String.substring n m s) <= m)%nat.
Proof.
  induction s as [|c s IH]; intros [|n] [|m]; simpl; try lia.
  - specialize (IH 0%nat m). lia.
  - apply IH.
  - apply IH.
Qed.

Lemma prefix_length (a : string) :
  forall b, String.prefix a b = true -> (String.length a <= String.length b)%nat.
Proof.
  induction a as [|c a IH]; intros [|d b]; cbn [String.prefix String.length];
    try discriminate; try lia.
  destruct (ascii_dec c d); [|discriminate].
  intros Hp. specialize (IH b Hp). lia.
Qed.

Lemma startsWith_merge_key_length (s : string) :
  startsWith s "<<" = true -> (2 <= String.length s)%nat.
Proof. intros Hs. apply prefix_length in Hs. exact Hs. Qed.

(** X11.  The merge-key exception reads [column] characters of the text.
    For an entry with the reason "duplicate key" whose mark has column 0 or
    1 (or -1), fewer than two characters are read, so the entry is never
    taken for a merge key: it is reported as a warning, even when the text
    at its position is "<<". *)
Theorem X11_merge_key_needs_two_columns (H : Collaborators) (node : YAMLNode)
    (startPositions : list Z) (text : string)
    (pre : list YamlError) (e : YamlError) (post : list YamlError) :
  reason e = "duplicate key" ->
  -2 < mark_column (mark e) < 2 ->
  isMergeKeyDuplicate text e = false /\
  becomesWarning node startPositions text pre e post.
Proof.
  intros Hr Hcol.
  assert (Hm : isMergeKeyDuplicate text e = false).
  { unfold isMergeKeyDuplicate. rewrite Hr. simpl.
    destruct (startsWith (sourceTextAt text e) "<<") eqn:Hs; [|reflexivity].
    apply startsWith_merge_key_length in Hs.
    unfold sourceTextAt, js_substring in Hs. simpl in Hs.
    match type of Hs with
    | (2 <= String.length (String.substring ?a ?b ?t))%nat =>
        pose proof (substring_length_le t a b) as Hle
    end.
    unfold clampIndex in *. lia. }
  split; [exact Hm|].
  apply becomesWarning_intro.
  - unfold isError, duplicateKeyReason. rewrite Hr. reflexivity.
  - unfold isWarningEntry. rewrite isDuplicateAndNotMergeKey_negb, Hm.
    unfold duplicateKeyReason. rewrite Hr. reflexivity.
Qed.

Lemma X11_merge_key_needs_two_columns_witness :
  let text := String.concat lineFeed ["<<: *b"; "<<: *c"] in
  let e := mkError "duplicate key" false (mkMark 7 0) in
  js_substring text 7 9 = "<<" /\
  isMergeKeyDuplicate text e = false /\
  @becomesWarning sampleCollaborators (YamlMap 0 13 []) [0; 7] text [] e [].
Proof.
  intros text e. split; [reflexivity|].
  apply (X11_merge_key_needs_two_columns sampleCollaborators (YamlMap 0 13 [])
           [0; 7] text [] e [] eq_refl).
  simpl. lia.
Defined.

(** ** Parent references *)

Section Parents.
Context `{Collaborators}.

Lemma parentsOlder_empty p σ : parentsOlder p (next σ) σ.
Proof. intros id Hid. lia. Qed.

Lemma parentsOlder_eta p lo σ :
  parentsOlder p lo σ -> parentsOlder p lo {| heap := heap σ; next := next σ |}.
Proof. destruct σ. auto. Qed.

Lemma parentsOlder_alloc_r p lo h nx a :
  (parent a = p \/ exists r, parent a = Some r /\ (lo <= r < nx)%nat) ->
  parentsOlder p lo {| heap := h; next := nx |} ->
  parentsOlder p lo {| heap := <[nx := a]> h; next := S nx |}.
Proof.
  intros Ha Hold id Hid. simpl in Hid. unfold parentAt. simpl.
  destruct (decide (id = nx)) as [->|Hne].
  - exists a. rewrite lookup_insert_eq. split; [reflexivity|].
    destruct Ha as [Ha|(r & Ha & Hr)]; [left; exact Ha|right].
    exists r. split; [exact Ha|lia].
  - rewrite lookup_insert_ne by congruence. apply Hold. simpl. lia.
Qed.

Lemma parentsOlder_update_r p lo h nx r f :
  parentsOlder p lo {| heap := h; next := nx |} ->
  parentsOlder p lo {| heap := alter (setContent f) r h; next := nx |}.
Proof.
  intros Hold id Hid. destruct (Hold id Hid) as (a & Ha & HP).
  unfold parentAt. simpl in *. destruct (decide (r = id)) as [->|Hne].
  - exists (setContent f a). rewrite lookup_alter_eq, Ha. split; [reflexivity|exact HP].
  - exists a. rewrite lookup_alter_ne by exact Hne. split; [exact Ha|exact HP].
Qed.

Lemma parentsOlder_update p lo r f σ :
  parentsOlder p lo σ -> parentsOlder p lo (update r f σ).
Proof.
  intros Hold. apply (parentsOlder_update_r p lo (heap σ) (next σ) r f).
  apply parentsOlder_eta, Hold.
Qed.

(** The nodes of a subtree built with the parent [r], added to older nodes
    that include [r]. *)
Lemma parentsOlder_child p lo r σ σ' :
  (lo <= r < next σ)%nat ->
  parentsOlder p lo σ -> preserves σ σ' ->
  parentsOlder (Some r) (next σ) σ' ->
  parentsOlder p lo σ'.
Proof.
  intros Hr Hold [Hn Hh] Hnew id Hid.
  destruct (Nat.lt_ge_cases id (next σ)) as [Hlt|Hge].
  - destruct (Hold id (conj (proj1 Hid) Hlt)) as (a & Ha & HP).
    exists a. rewrite Hh by exact Hlt. auto.
  - destruct (Hnew id (conj Hge (proj2 Hid))) as (a & Ha & [HP|(q & HP & Hq)]).
    + exists a. split; [exact Ha|]. right. exists r. split; [exact HP|lia].
    + exists a. split; [exact Ha|]. right. exists q. split; [exact HP|lia].
Qed.

(** The nodes of a subtree built with the same parent [p]. *)
Lemma parentsOlder_alias p lo σ σ' :
  (lo <= next σ)%nat ->
  parentsOlder p lo σ -> preserves σ σ' ->
  parentsOlder p (next σ) σ' ->
  parentsOlder p lo σ'.
Proof.
  intros Hlo Hold [Hn Hh] Hnew id Hid.
  destruct (Nat.lt_ge_cases id (next σ)) as [Hlt|Hge].
  - destruct (Hold id (conj (proj1 Hid) Hlt)) as (a & Ha & HP).
    exists a. rewrite Hh by exact Hlt. auto.
  - destruct (Hnew id (conj Hge (proj2 Hid))) as (a & Ha & [HP|(q & HP & Hq)]).
    + exists a. split; [exact Ha|]. left. exact HP.
    + exists a. split; [exact Ha|]. right. exists q. split; [exact HP|lia].
Qed.

Ltac solve_parentsOlder :=
  repeat first
    [ assumption
    | apply parentsOlder_empty
    | apply parentsOlder_update
    | apply parentsOlder_update_r
    | apply parentsOlder_alloc_r;
        [first [left; reflexivity
               |right; eexists; split; [reflexivity|simpl; lia]]|]
    | progress (apply parentsOlder_eta) ].

Lemma buildScalar_parentsOlder p instance σ :
  parentsOlder p (next σ) (buildScalar p instance σ).2.
Proof.
  unfold buildScalar. destruct (plainScalar instance && _).
  - simpl. solve_parentsOlder.
  - destruct (determineScalarType instance); simpl; solve_parentsOlder.
Qed.

(** Every node a conversion allocates has the parent the call was given or
    a node the same conversion allocated earlier. *)
Lemma recursivelyBuildAst_node_parentsOlder n :
  forall p σ, parentsOlder p (next σ) (recursivelyBuildAst_node p n σ).2.
Proof.
  induction n as
    [s e mappings IH | s e key value IH | s e items IH | instance
    | s e value IH | s e value | s e] using YAMLNode_nested_ind;
    intros p σ; simpl.
  - apply (forOf_invariant
             (fun σ' => (next σ < next σ')%nat /\ parentsOlder p (next σ) σ')
             _ _ _ IH).
    + intros x σ' Hx [Hlt Hold]. unfold mappingsBody.
      specialize (Hx (Some (next σ)) σ').
      frame_recursive_call x r σ'' Hf. simpl in *.
      split; [destruct Hf; lia|]. apply parentsOlder_update.
      apply (parentsOlder_child p (next σ) (next σ) σ' σ'');
        [lia|exact Hold|exact Hf|exact Hx].
    + split; [simpl; lia|]. solve_parentsOlder.
  - destruct value as [v|].
    + match goal with
      | |- context [recursivelyBuildAst_node ?q v ?t] =>
          remember t as σ3 eqn:E3;
          assert (H3 : parentsOlder p (next σ) σ3)
            by (subst σ3; solve_parentsOlder);
          assert (Hn3 : (next σ < next σ3)%nat) by (subst σ3; simpl; lia);
          clear E3;
          specialize (IH v eq_refl q σ3);
          pose proof (recursivelyBuildAst_node_preserves v q σ3) as Hf;
          destruct (recursivelyBuildAst_node q v σ3) as [r σ4]
      end.
      simpl in *. do 2 apply parentsOlder_update.
      apply (parentsOlder_child p (next σ) (next σ) σ3 σ4);
        [lia|exact H3|exact Hf|exact IH].
    + simpl. solve_parentsOlder.
  - apply (forOf_invariant
             (fun σ' => (next σ < next σ')%nat /\ parentsOlder p (next σ) σ')
             _ _ _ IH).
    + intros [it|] σ' Hx [Hlt Hold]; unfold itemsBody.
      * specialize (Hx it eq_refl (Some (next σ)) σ').
        frame_recursive_call it r σ'' Hf. simpl in *.
        split; [destruct Hf; lia|]. apply parentsOlder_update.
        apply (parentsOlder_child p (next σ) (next σ) σ' σ'');
          [lia|exact Hold|exact Hf|exact Hx].
      * destruct (Z.eqb 0 _); simpl; [auto|].
        split; [lia|]. apply parentsOlder_update_r, parentsOlder_alloc_r.
        -- left. reflexivity.
        -- apply parentsOlder_eta, Hold.
    + split; [simpl; lia|]. solve_parentsOlder.
  - apply buildScalar_parentsOlder.
  - destruct value as [v|].
    + specialize (IH v eq_refl p σ).
      frame_recursive_call v r σ1 Hf. destruct r as [id|]; simpl in *.
      * exact IH.
      * apply parentsOlder_alloc_r; [left; reflexivity|].
        apply parentsOlder_eta, IH.
    + simpl. solve_parentsOlder.
  - solve_parentsOlder.
  - apply parentsOlder_empty.
Qed.

End Parents.

(** X12.  Every node a conversion allocates has, as parent, the parent the
    call was given or a node the same conversion allocated before it, and
    every identity of the range is allocated.  So in a document every node
    has no parent or an older one: following parent references always ends,
    and never runs in a cycle. *)
Theorem X12_parents_are_older (H : Collaborators) :
  (forall p node σ,
     let res := recursivelyBuildAst p node σ in
     forall id, (next σ <= id < next res.2)%nat ->
       exists a, heap res.2 !! id = Some a /\
         (parent a = p \/
          exists r, parent a = Some r /\ (next σ <= r < id)%nat)) /\
  (forall yamlDoc startPositions text,
     let d := createJSONDocument yamlDoc startPositions text in
     forall id, (id < next (nodes d))%nat ->
       exists a, heap (nodes d) !! id = Some a /\
         (parent a = None \/ exists r, parent a = Some r /\ (r < id)%nat)).
Proof.
  assert (Hgen : forall p node σ,
            parentsOlder p (next σ) (recursivelyBuildAst p node σ).2).
  { intros p [n|] σ; simpl.
    - apply recursivelyBuildAst_node_parentsOlder.
    - apply parentsOlder_empty. }
  split.
  - intros p node σ res id Hid. exact (Hgen p node σ id Hid).
  - intros yamlDoc startPositions text d id Hid. subst d.
    rewrite createJSONDocument_unfold in *. simpl in *.
    destruct (Hgen None (Some (doc_node yamlDoc)) emptyStore id)
      as (a & Ha & HP); [simpl; lia|].
    exists a. split; [exact Ha|].
    destruct HP as [HP|(r & HP & Hr)]; [left; exact HP|right].
    exists r. split; [exact HP|lia].
Qed.

Lemma X12_parents_are_older_witness :
  let top :=
    YamlMap 0 12
      [YAMLMapping 0 12 (plainScalarAt 0 1 "a")
         (Some (YAMLSequence 5 12 [None; Some (YAMLScalarNode (plainScalarAt 9 10 "x"))]))] in
  let d := @createJSONDocument sampleCollaborators (mkRawDocument top []) [0] "" in
  next (nodes d) = 6%nat /\
  exists a, heap (nodes d) !! 5%nat = Some a /\
    (parent a = None \/ exists r, parent a = Some r /\ (r < 5)%nat).
Proof.
  intros top d. split; [reflexivity|].
  apply (proj2 (X12_parents_are_older sampleCollaborators)
           (mkRawDocument top []) [0] "" 5%nat).
  vm_compute. lia.
Defined.

(** ** Custom tag specifications *)

Lemma js_split_spaceFree (s : string) :
  spaceFree s = true -> js_split " "%char s = [s].
Proof.
  induction s as [|c s IH]; simpl; [reflexivity|].
  intros Hs. apply andb_true_iff in Hs as [Hc Hs].
  apply negb_true_iff in Hc. rewrite Hc, (IH Hs). reflexivity.
Qed.

Lemma js_split_space (a b : string) :
  spaceFree a = true ->
  js_split " "%char (String.append a (String " "%char b))
  = a :: js_split " "%char b.
Proof.
  induction a as [|c a IH]; simpl; [reflexivity|].
  intros Ha. apply andb_true_iff in Ha as [Hc Ha].
  apply negb_true_iff in Hc. rewrite Hc, (IH Ha). reflexivity.
Qed.

Lemma validKinds_spaceFree kind :
  In kind validKinds -> spaceFree kind = true /\ String.eqb kind "" = false.
Proof.
  intros [<-|[<-|[<-|[]]]]; split; reflexivity.
Qed.

(** X13.  How a tag specification is read.  A name alone, or a name
    followed by a space and nothing, binds the tag to the kind "scalar"; a
    name, a space and one of the kinds "scalar", "sequence" and "mapping"
    binds it to that kind; whatever follows a second space is ignored. *)
Theorem X13_tag_specification (name kind rest : string) :
  spaceFree name = true ->
  In kind ["scalar"; "sequence"; "mapping"] ->
  typeOfTag name = mkType name "scalar" /\
  typeOfTag (String.append name " ") = mkType name "scalar" /\
  typeOfTag (String.append name (String " "%char kind)) = mkType name kind /\
  typeOfTag (String.append name
               (String " "%char (String.append kind (String " "%char rest))))
  = mkType name kind.
Proof.
  intros Hname Hvalid. destruct (validKinds_spaceFree kind Hvalid) as [Hkind Hne].
  unfold typeOfTag. split; [|split; [|split]].
  - rewrite (js_split_spaceFree name Hname). reflexivity.
  - rewrite (js_split_space name "" Hname). reflexivity.
  - rewrite (js_split_space name kind Hname), (js_split_spaceFree kind Hkind).
    unfold kindOrScalar. simpl. rewrite Hne. reflexivity.
  - rewrite (js_split_space name _ Hname), (js_split_space kind rest Hkind).
    unfold kindOrScalar. simpl. rewrite Hne. reflexivity.
Qed.

Lemma X13_tag_specification_witness :
  typeOfTag "!foo" = mkType "!foo" "scalar" /\
  typeOfTag "!foo " = mkType "!foo" "scalar" /\
  typeOfTag "!foo mapping" = mkType "!foo" "mapping" /\
  typeOfTag "!foo mapping of things" = mkType "!foo" "mapping".
Proof.
  exact (X13_tag_specification "!foo" "mapping" "of things" eq_refl
           (or_intror (or_intror (or_introl eq_refl)))).
Defined.

Lemma lookup_registerCustomTags_other (k : string) tags :
  forall schema,
    (forall tag, In tag tags -> type_tag (typeOfTag tag) <> k) ->
    compiledTypeMap (registerCustomTags tags schema) !! k
    = compiledTypeMap schema !! k.
Proof.
  induction tags as [|t tags IH]; intros schema Hk; [reflexivity|].
  change (t :: tags) with ([t] ++ tags). rewrite registerCustomTags_app.
  rewrite IH by (intros tag Hin; apply Hk; right; exact Hin).
  unfold registerCustomTags. simpl. apply lookup_insert_ne.
  apply (Hk t). left. reflexivity.
Qed.

Lemma lookup_registerCustomTags_last_wins before tag after schema :
  (forall t, In t after -> type_tag (typeOfTag t) <> type_tag (typeOfTag tag)) ->
  compiledTypeMap (registerCustomTags (before ++ tag :: after) schema)
    !! type_tag (typeOfTag tag)
  = Some (typeOfTag tag).
Proof.
  intros Hafter. change (tag :: after) with ([tag] ++ after).
  rewrite app_assoc, registerCustomTags_app.
  rewrite lookup_registerCustomTags_other by exact Hafter.
  apply registerCustomTags_last.
Qed.

Lemma lookup_registerCustomTags_listed tags :
  forall schema tag, In tag tags ->
    exists t, In t tags /\
      type_tag (typeOfTag t) = type_tag (typeOfTag tag) /\
      compiledTypeMap (registerCustomTags tags schema) !! type_tag (typeOfTag tag)
      = Some (typeOfTag t).
Proof.
  induction tags as [|x tags IH] using rev_ind; intros schema tag Hin; [destruct Hin|].
  destruct (string_dec (type_tag (typeOfTag x)) (type_tag (typeOfTag tag))) as [Heq|Hne].
  - exists x. split; [apply in_or_app; right; left; reflexivity|].
    split; [exact Heq|]. rewrite <- Heq. apply registerCustomTags_last.
  - apply in_app_or in Hin as [Hin|[->|[]]]; [|contradiction].
    destruct (IH schema tag Hin) as (t & Ht & Hname & Hlook).
    exists t. split; [apply in_or_app; left; exact Ht|]. split; [exact Hname|].
    rewrite registerCustomTags_app, lookup_registerCustomTags_other; [exact Hlook|].
    intros y [<-|[]]. exact Hne.
Qed.

(** X14.  After the registration of [parse], whatever schema the
    constructor returned: the name of every listed tag resolves, to the type
    built from the last specification that has this name; and a name that
    no listed tag has keeps the entry the constructor gave it. *)
Theorem X14_registered_tags (P : ParserCollaborators)
    (customTags : list string) :
  let schema := schemaWithAdditionalTags customTags in
  (forall before tag after,
     customTags = before ++ tag :: after ->
     (forall t, In t after -> type_tag (typeOfTag t) <> type_tag (typeOfTag tag)) ->
     compiledTypeMap schema !! type_tag (typeOfTag tag) = Some (typeOfTag tag)) /\
  (forall tag, In tag customTags ->
     exists t, In t customTags /\
       type_tag (typeOfTag t) = type_tag (typeOfTag tag) /\
       compiledTypeMap schema !! type_tag (typeOfTag tag) = Some (typeOfTag t)) /\
  (forall k,
     (forall tag, In tag customTags -> type_tag (typeOfTag tag) <> k) ->
     compiledTypeMap schema !! k
     = compiledTypeMap (Schema_create (List.map typeOfTag customTags)) !! k).
Proof.
  intros schema. subst schema. unfold schemaWithAdditionalTags. split; [|split].
  - intros before tag after -> Hafter.
    apply lookup_registerCustomTags_last_wins, Hafter.
  - intros tag Hin. apply lookup_registerCustomTags_listed, Hin.
  - intros k Hk. apply lookup_registerCustomTags_other, Hk.
Qed.

Lemma X14_registered_tags_witness :
  let P := specParserCollaborators ∅ (fun _ _ => []) (fun _ => []) in
  let customTags := ["!foo scalar"; "!bar sequence"; "!foo mapping"] in
  compiledTypeMap (@schemaWithAdditionalTags P customTags) !! "!foo"
  = Some (mkType "!foo" "mapping") /\
  compiledTypeMap (@schemaWithAdditionalTags P customTags) !! "!baz" = None.
Proof.
  intros P customTags. split.
  - apply (proj1 (X14_registered_tags P customTags)
             ["!foo scalar"; "!bar sequence"] "!foo mapping" [] eq_refl).
    intros t [].
  - rewrite (proj2 (proj2 (X14_registered_tags P customTags)) "!baz").
    + reflexivity.
    + intros tag [<-|[<-|[<-|[]]]]; discriminate.
Defined.

Lemma NoDup_map_later {A B : Type} (f : A -> B) before x after :
  List.NoDup (List.map f (before ++ x :: after)) ->
  forall t, In t after -> f t <> f x.
Proof.
  rewrite List.map_app. simpl. intros Hnd t Hin Heq.
  apply List.NoDup_remove_2 in Hnd. apply Hnd.
  apply in_or_app. right. rewrite <- Heq. apply in_map, Hin.
Qed.

Lemma Schema_eq (a b : Schema) :
  (forall k, compiledTypeMap a !! k = compiledTypeMap b !! k) -> a = b.
Proof.
  destruct a as [ma], b as [mb]. simpl. intros Hk. f_equal. apply map_eq, Hk.
Qed.

(** X15.  The explicit registration does not depend on the order of the
    tag specifications, as long as no two of them have the same name: two
    lists that are permutations of each other give the same registry, from
    any starting schema. *)
Theorem X15_registration_order (tags tags' : list string) (schema : Schema) :
  Permutation tags tags' ->
  List.NoDup (List.map (fun t => type_tag (typeOfTag t)) tags) ->
  registerCustomTags tags schema = registerCustomTags tags' schema.
Proof.
  intros Hperm Hnd.
  assert (Hnd' : List.NoDup (List.map (fun t => type_tag (typeOfTag t)) tags')).
  { eapply Permutation_NoDup; [|exact Hnd]. apply Permutation_map, Hperm. }
  apply Schema_eq. intros k.
  destruct (in_dec string_dec k (List.map (fun t => type_tag (typeOfTag t)) tags))
    as [Hin|Hout].
  - apply in_map_iff in Hin as (tag & <- & Hin).
    pose proof (Permutation_in tag Hperm Hin) as Hin'.
    apply List.in_split in Hin as (b & a & ->).
    apply List.in_split in Hin' as (b' & a' & ->).
    rewrite !lookup_registerCustomTags_last_wins; [reflexivity| |].
    + apply (NoDup_map_later _ b' tag a' Hnd').
    + apply (NoDup_map_later _ b tag a Hnd).
  - rewrite !lookup_registerCustomTags_other; [reflexivity| |].
    + intros tag Hin Hk. apply Hout. rewrite <- Hk.
      apply (in_map (fun t => type_tag (typeOfTag t))).
      apply (Permutation_in tag (Permutation_sym Hperm) Hin).
    + intros tag Hin Hk. apply Hout. rewrite <- Hk.
      apply (in_map (fun t => type_tag (typeOfTag t))), Hin.
Qed.

Lemma X15_registration_order_witness :
  registerCustomTags ["!foo mapping"; "!bar"] (mkSchema ∅)
  = registerCustomTags ["!bar"; "!foo mapping"] (mkSchema ∅).
Proof.
  apply X15_registration_order.
  - apply perm_swap.
  - repeat (apply List.NoDup_cons); simpl; try apply List.NoDup_nil; [|tauto].
    intros [Hx|[]]. discriminate Hx.
Defined.

(** ** Merge keys at the start of a line *)

(** With a mark whose column is 0 or 1, the window the merge-key test reads
    is shorter than "<<". *)
Lemma short_window_is_not_merge_key text e :
  -2 < mark_column (mark e) < 2 -> isMergeKeyDuplicate text e = false.
Proof.
  intros Hcol. unfold isMergeKeyDuplicate.
  destruct (startsWith (sourceTextAt text e) "<<") eqn:Hs; [|apply andb_false_r].
  apply startsWith_merge_key_length in Hs.
  unfold sourceTextAt, js_substring in Hs. simpl in Hs.
  match type of Hs with
  | (2 <= String.length (String.substring ?a ?b ?t))%nat =>
      pose proof (substring_length_le t a b) as Hle
  end.
  unfold clampIndex in *. lia.
Qed.

(** C2.  What the code does with the duplicate of a merge key that stands
    at the start of a line.  The test reads the text from the mark's
    position to position + column, so at column 0 or 1 it reads fewer than
    two characters and never sees "<<": the entry is not dropped but
    reported as a warning.  On the text of two top-level merge keys, with
    the two entries the parser reports for them, the document has both as
    warnings with the message "duplicate key". *)
Theorem C2_top_level_merge_key_duplicate_is_kept :
  (forall (H : Collaborators) node startPositions text pre e post,
     reason e = "duplicate key" ->
     startsWith (keyTextAt text e) "<<" = true ->
     -2 < mark_column (mark e) < 2 ->
     becomesWarning node startPositions text pre e post /\
     ~ isDropped node startPositions text pre e post) /\
  (let text := topLevelMergeKeyText in
   let e1 := mkError "duplicate key" false (mkMark 10 0) in
   let e2 := mkError "duplicate key" false (mkMark 0 0) in
   let d :=
     @documentOf sampleCollaborators (YamlMap 0 21 []) [0; 10; 21] text [e1; e2] in
   startsWith (keyTextAt text e1) "<<" = true /\
   startsWith (keyTextAt text e2) "<<" = true /\
   warnings d = [convertError e1; convertError e2] /\
   countMessage "duplicate key" (warnings d) = 2%nat).
Proof.
  split.
  - intros H node startPositions text pre e post Hr _ Hcol.
    pose proof (short_window_is_not_merge_key text e Hcol) as Hm.
    assert (Hw : isWarningEntry text e = true).
    { unfold isWarningEntry. rewrite isDuplicateAndNotMergeKey_negb, Hm.
      unfold duplicateKeyReason. rewrite Hr. reflexivity. }
    split.
    + apply becomesWarning_intro; [|exact Hw].
      unfold isError, duplicateKeyReason. rewrite Hr. reflexivity.
    + intros Hd. apply isDropped_elim in Hd as [_ Hd]. congruence.
  - repeat split; reflexivity.
Qed.
